(** * A contact book with phone validation and an upcoming-birthday query

    Shallow embedding of the core of [main.py]: the field wrappers
    [Name], [Phone] and [Birthday], the [Record] aggregate and the
    [AddressBook] store, together with the parts of Python's [re] and
    [datetime] libraries that the core calls.

    Conventions.
    - A Python [str] is a sequence of Unicode code points: [text] is
      [list N].
    - A call that may raise returns a [result]; a method that mutates
      [self] is a function from the state before the call to the state
      after it paired with the outcome, so that the state left behind by a
      raising call can be observed.
    - [datetime.today()] is the only input read from the environment; it is
      passed to [get_upcoming_birthdays] as the argument [today]. *)

From Stdlib Require Import Ascii String.
From stdpp Require Import base option list numbers.

Open Scope Z_scope.

(** ** Text *)

Abbreviation text := (list N).

Definition chr (a : ascii) : N := N_of_ascii a.

(** A string literal read as a sequence of code points (each character of
    the literal is one code point below 256). *)
Fixpoint txt (s : string) : text :=
  match s with
  | EmptyString => []
  | String a s' => chr a :: txt s'
  end.

(** ** Exceptions and results *)

Inductive exn := ValueError | OverflowError | KeyError.

Inductive result (A : Type) :=
| OK (a : A)
| Raise (e : exn).
Arguments OK {A} a.
Arguments Raise {A} e.

#[export] Instance result_fmap : FMap result := fun A B f m =>
  match m with
  | OK a => OK (f a)
  | Raise e => Raise e
  end.
#[export] Instance result_ret : MRet result := fun A a => OK a.
#[export] Instance result_bind : MBind result := fun A B f m =>
  match m with
  | OK a => f a
  | Raise e => Raise e
  end.

Definition succeeds {A} (r : result A) : Prop := ∃ a, r = OK a.

(** A method of an object with state [S]: from the state before the call to
    the state after it and the outcome.  A raise keeps the state reached so
    far. *)
Definition method (S A : Type) : Type := S → S * result A.

#[export] Instance method_ret {S} : MRet (method S) := fun A a s => (s, OK a).
#[export] Instance method_bind {S} : MBind (method S) := fun A B f m s =>
  match m s with
  | (s', OK a) => f a s'
  | (s', Raise e) => (s', Raise e)
  end.

Definition get {S} : method S S := fun s => (s, OK s).
Definition modify {S} (f : S → S) : method S unit := fun s => (f s, OK tt).
Definition raise {S A} (e : exn) : method S A := fun s => (s, Raise e).
Definition lift {S A} (r : result A) : method S A := fun s => (s, r).

(** ** Unicode decimal digits

    The class [\d] of a [str] pattern and the conversion [int] both follow
    the Unicode decimal-digit property.  Below 128 these are the ten
    characters [0]..[9]; the rest of the table belongs to the interpreter's
    Unicode database and is taken as a parameter: [Nd_value c] is the digit
    value of the code point [c >= 128] when [c] is a decimal digit. *)

Class UnicodeData := { Nd_value : N → option N }.

Definition ascii_digit (c : N) : bool := ((48 <=? c) && (c <=? 57))%N.

Definition decimal_value `{UnicodeData} (c : N) : option N :=
  if (c <? 128)%N then (if ascii_digit c then Some (c - 48)%N else None)
  else Nd_value c.

Definition is_decimal `{UnicodeData} (c : N) : bool :=
  match decimal_value c with Some _ => true | None => false end.

(** ** The fragment of [re] used by the program and by [strptime] *)

Module re.

Inductive pattern :=
| Lit (c : N)                 (* one literal character *)
| Range (lo hi : N)           (* [lo-hi] *)
| Digit                       (* \d *)
| Cat (p q : pattern)         (* pq *)
| Alt (p q : pattern)         (* p|q *)
| Rep (n : nat) (p : pattern) (* p{n} *).

(** A match: the text matched and the text that follows it. *)
Definition one (ok : N → bool) (s : text) : list (text * text) :=
  match s with
  | c :: s' => if ok c then [([c], s')] else []
  | [] => []
  end.

Definition then_ (f : text → list (text * text)) (acc : list (text * text))
  : list (text * text) :=
  '(m1, s1) ← acc; '(m2, s2) ← f s1; [(m1 ++ m2, s2)].

(** [run p s]: every way of matching [p] at the start of [s], in the order
    in which the backtracking matcher finds them. *)
Fixpoint run `{UnicodeData} (p : pattern) (s : text) : list (text * text) :=
  match p with
  | Lit c => one (λ x, bool_decide (x = c)) s
  | Range lo hi => one (λ x, (lo <=? x) && (x <=? hi))%N s
  | Digit => one is_decimal s
  | Cat p q => then_ (run q) (run p s)
  | Alt p q => run p s ++ run q s
  | Rep n p => Nat.iter n (then_ (run p)) [([], s)]
  end.

(** [re.fullmatch(p, s)], as a truth value: some match ends where [s]
    ends. *)
Definition fullmatch `{UnicodeData} (p : pattern) (s : text) : bool :=
  existsb (λ '(_, r), bool_decide (r = [])) (run p s).

(** The texts a pattern denotes. *)
Inductive matches `{UnicodeData} : pattern → text → Prop :=
| m_lit c : matches (Lit c) [c]
| m_range lo hi c : (lo ≤ c ≤ hi)%N → matches (Range lo hi) [c]
| m_digit c : is_decimal c = true → matches Digit [c]
| m_cat p q u v : matches p u → matches q v → matches (Cat p q) (u ++ v)
| m_alt_l p q u : matches p u → matches (Alt p q) u
| m_alt_r p q u : matches q u → matches (Alt p q) u
| m_rep_0 p : matches (Rep 0 p) []
| m_rep_S n p u v : matches (Rep n p) u → matches p v → matches (Rep (S n) p) (u ++ v).

End re.

(** ** Fields *)

Module Field.
(** [Field.__init__] stores the value and cannot raise. *)
Definition init {A} (value : A) : result A := OK value.
End Field.

Module Name.
Record t := mk { value : text }.
Definition init (value : text) : result t := mk <$> Field.init value.
End Name.

Module Phone.
Record t := mk { value : text }.

(** [r"\d{10}"] *)
Definition pattern : re.pattern := re.Rep 10 re.Digit.

Definition validate `{UnicodeData} (value : text) : bool :=
  re.fullmatch pattern value.

Definition init `{UnicodeData} (value : text) : result t :=
  if validate value then mk <$> Field.init value
  else Raise ValueError.
End Phone.

(** ** The fragment of [datetime] used by the program

    Naive datetimes (no time zone), after the pure-Python implementation of
    the standard library. *)

Module datetime.

Record t := mk {
  year : Z; month : Z; day : Z;
  hour : Z; minute : Z; second : Z; microsecond : Z
}.

Definition MINYEAR : Z := 1.
Definition MAXYEAR : Z := 9999.
Definition MAXORDINAL : Z := 3652059.

Definition is_leap (y : Z) : bool :=
  (y mod 4 =? 0) && (negb (y mod 100 =? 0) || (y mod 400 =? 0)).

Definition DAYS_IN_MONTH : list Z :=
  [31; 28; 31; 30; 31; 30; 31; 31; 30; 31; 30; 31].

Definition DAYS_BEFORE_MONTH : list Z :=
  [0; 31; 59; 90; 120; 151; 181; 212; 243; 273; 304; 334].

(** Months are numbered from 1; a month outside 1..12 never reaches these
    tables, and reads as 0 here. *)
Definition table (l : list Z) (m : Z) : Z := default 0 (l !! Z.to_nat (m - 1)).

Definition days_before_year (y : Z) : Z :=
  (y - 1) * 365 + (y - 1) / 4 - (y - 1) / 100 + (y - 1) / 400.

Definition days_in_month (y m : Z) : Z :=
  if (m =? 2) && is_leap y then 29 else table DAYS_IN_MONTH m.

Definition days_before_month (y m : Z) : Z :=
  table DAYS_BEFORE_MONTH m + (if (2 <? m) && is_leap y then 1 else 0).

Definition ymd2ord (y m d : Z) : Z :=
  days_before_year y + days_before_month y m + d.

Definition DI400Y : Z := Eval cbv in days_before_year 401.
Definition DI100Y : Z := Eval cbv in days_before_year 101.
Definition DI4Y : Z := Eval cbv in days_before_year 5.

Definition ord2ymd (n : Z) : Z * Z * Z :=
  let n := n - 1 in
  let n400 := n / DI400Y in let n := n mod DI400Y in
  let year := n400 * 400 + 1 in
  let n100 := n / DI100Y in let n := n mod DI100Y in
  let n4 := n / DI4Y in let n := n mod DI4Y in
  let n1 := n / 365 in let n := n mod 365 in
  let year := year + n100 * 100 + n4 * 4 + n1 in
  if (n1 =? 4) || (n100 =? 4) then (year - 1, 12, 31)
  else
    let leapyear := (n1 =? 3) && (negb (n4 =? 24) || (n100 =? 3)) in
    let month := Z.shiftr (n + 50) 5 in
    let preceding :=
      table DAYS_BEFORE_MONTH month + (if (2 <? month) && leapyear then 1 else 0) in
    let '(month, preceding) :=
      if n <? preceding
      then (month - 1,
            preceding - (table DAYS_IN_MONTH (month - 1)
                         + (if (month - 1 =? 2) && leapyear then 1 else 0)))
      else (month, preceding) in
    (year, month, n - preceding + 1).

Definition between (lo x hi : Z) : bool := (lo <=? x) && (x <=? hi).

(** The constructor [datetime(year, month, day, hour, minute, second,
    microsecond)]: a field out of range raises [ValueError]. *)
Definition new (y m d hh mm ss us : Z) : result t :=
  if negb (between MINYEAR y MAXYEAR) then Raise ValueError
  else if negb (between 1 m 12) then Raise ValueError
  else if negb (between 1 d (days_in_month y m)) then Raise ValueError
  else if negb (between 0 hh 23) then Raise ValueError
  else if negb (between 0 mm 59) then Raise ValueError
  else if negb (between 0 ss 59) then Raise ValueError
  else if negb (between 0 us 999999) then Raise ValueError
  else OK (mk y m d hh mm ss us).

(** [self.replace(year=y)] builds a new datetime from the fields of [self]
    with the year replaced, through the checking constructor. *)
Definition replace_year (self : t) (y : Z) : result t :=
  new y (month self) (day self)
      (hour self) (minute self) (second self) (microsecond self).

Definition toordinal (self : t) : Z :=
  ymd2ord (year self) (month self) (day self).

(** [self + timedelta(days=n)]: the time of day is kept, the date moves by
    [n] days; a date outside the supported range raises [OverflowError]. *)
Definition add_days (self : t) (n : Z) : result t :=
  let days := toordinal self + n in
  if (0 <? days) && (days <=? MAXORDINAL) then
    let '(y, m, d) := ord2ymd days in
    OK (mk y m d (hour self) (minute self) (second self) (microsecond self))
  else Raise OverflowError.

(** Comparison is that of the tuples (year, month, day, hour, minute,
    second, microsecond). *)
Definition fields (self : t) : list Z :=
  [year self; month self; day self;
   hour self; minute self; second self; microsecond self].

Fixpoint cmp (a b : list Z) : comparison :=
  match a, b with
  | x :: a', y :: b' =>
      match x ?= y with
      | Eq => cmp a' b'
      | c => c
      end
  | [], [] => Eq
  | [], _ :: _ => Lt
  | _ :: _, [] => Gt
  end.

Definition lt (a b : t) : bool :=
  match cmp (fields a) (fields b) with Lt => true | _ => false end.

Definition le (a b : t) : bool :=
  match cmp (fields a) (fields b) with Gt => false | _ => true end.

Definition midnight (self : t) : Prop :=
  hour self = 0 ∧ minute self = 0 ∧ second self = 0 ∧ microsecond self = 0.

(** *** [strptime(value, "%d.%m.%Y")]

    The format is compiled to
    [(?P<d>3[0-1]|[1-2]\d|0[1-9]|[1-9]| [1-9])\.(?P<m>1[0-2]|0[1-9]|[1-9])\.(?P<Y>\d\d\d\d)],
    matched at the start of the value; text left over after the match is an
    error.  The groups are converted with [int] and the date is built by the
    checking constructor, at midnight. *)

Definition alts (ps : list re.pattern) (last : re.pattern) : re.pattern :=
  foldr re.Alt last ps.

Definition re_d : re.pattern :=
  alts [re.Cat (re.Lit (chr "3")) (re.Range (chr "0") (chr "1"));
        re.Cat (re.Range (chr "1") (chr "2")) re.Digit;
        re.Cat (re.Lit (chr "0")) (re.Range (chr "1") (chr "9"));
        re.Range (chr "1") (chr "9")]
       (re.Cat (re.Lit (chr " ")) (re.Range (chr "1") (chr "9"))).

Definition re_m : re.pattern :=
  alts [re.Cat (re.Lit (chr "1")) (re.Range (chr "0") (chr "2"));
        re.Cat (re.Lit (chr "0")) (re.Range (chr "1") (chr "9"))]
       (re.Range (chr "1") (chr "9")).

Definition re_Y : re.pattern :=
  re.Cat re.Digit (re.Cat re.Digit (re.Cat re.Digit re.Digit)).

Definition re_dot : re.pattern := re.Lit (chr ".").

(** The first match of the compiled format: the three groups and the text
    that the match did not consume. *)
Definition match_dmY `{UnicodeData} (s : text) : option (text * text * text * text) :=
  head ('(d, s1) ← re.run re_d s;
        '(_, s2) ← re.run re_dot s1;
        '(m, s3) ← re.run re_m s2;
        '(_, s4) ← re.run re_dot s3;
        '(y, s5) ← re.run re_Y s4;
        [(d, m, y, s5)]).

(** [int(s)] for the texts a group can hold: decimal digits, after blanks
    are stripped from the front. *)
Fixpoint int_digits `{UnicodeData} (acc : Z) (s : text) : option Z :=
  match s with
  | [] => Some acc
  | c :: s' =>
      match decimal_value c with
      | Some v => int_digits (10 * acc + Z.of_N v) s'
      | None => None
      end
  end.

Fixpoint lstrip (s : text) : text :=
  match s with
  | c :: s' => if bool_decide (c = chr " ") then lstrip s' else s
  | [] => []
  end.

Definition int `{UnicodeData} (s : text) : result Z :=
  match lstrip s with
  | [] => Raise ValueError
  | s' => match int_digits 0 s' with
          | Some z => OK z
          | None => Raise ValueError
          end
  end.

Definition strptime_dmY `{UnicodeData} (value : text) : result t :=
  match match_dmY value with
  | None => Raise ValueError
  | Some (d, m, y, rest) =>
      match rest with
      | _ :: _ => Raise ValueError
      | [] =>
          day ← int d;
          month ← int m;
          year ← int y;
          new year month day 0 0 0 0
      end
  end.

(** *** [strftime("%d.%m.%Y")]

    The directives are expanded by the C library.  Day and month are
    written with two digits, padded with a zero.  The year is written by
    [%Y] as a plain decimal number, without padding: the year 999 is
    written [999], not [0999]. *)

Definition digit_chr (z : Z) : N := (48 + Z.to_N z)%N.

Definition zfill2 (z : Z) : text := [digit_chr (z / 10); digit_chr (z mod 10)].

(** The decimal digits of [z >= 0] in front of [acc], the last digit
    first; [fuel] bounds the number of digits. *)
Fixpoint decimal_loop (fuel : nat) (z : Z) (acc : text) : text :=
  match fuel with
  | O => acc
  | S fuel' =>
      let acc' := digit_chr (z mod 10) :: acc in
      if z <? 10 then acc' else decimal_loop fuel' (z / 10) acc'
  end.

(** A number below [2 ^ n] has at most [n] decimal digits. *)
Definition decimal (z : Z) : text :=
  decimal_loop (S (Z.to_nat (Z.log2 z))) z [].

Definition strftime_dmY (self : t) : text :=
  zfill2 (day self) ++ [chr "."] ++ zfill2 (month self) ++ [chr "."]
  ++ decimal (year self).

End datetime.

Module Birthday.
Record t := mk { value : datetime.t }.

(** [Field.__init__] is not called: the parsed datetime is stored directly,
    and a [ValueError] of the parser is replaced by the program's own. *)
Definition init `{UnicodeData} (value : text) : result t :=
  match datetime.strptime_dmY value with
  | OK d => OK (mk d)
  | Raise ValueError => Raise ValueError
  | Raise e => Raise e
  end.
End Birthday.

(** ** Records *)

Module Record.

Record t := mk {
  name : Name.t;
  phones : list Phone.t;
  birthday : option Birthday.t
}.

Definition set_phones (self : t) (ps : list Phone.t) : t :=
  mk (name self) ps (birthday self).

Definition set_birthday (self : t) (b : option Birthday.t) : t :=
  mk (name self) (phones self) b.

Definition init (name : text) : result t :=
  n ← Name.init name;
  mret (mk n [] None).

(** [self.phones.append(Phone(phone))]: the phone is built, and may raise,
    before the list is touched. *)
Definition add_phone `{UnicodeData} (phone : text) : method t unit :=
  p ← lift (Phone.init phone);
  modify (λ self, set_phones self (phones self ++ [p])).

Definition remove_phone (phone : text) : method t unit :=
  modify (λ self,
    set_phones self
      (filter (λ p, Phone.value p ≠ phone) (phones self))).

(** The loop of [edit_phone], at the [i]-th phone with [todo] still to
    visit: the first phone whose value is [old_phone] is overwritten in
    place, and the loop stops there. *)
Fixpoint edit_loop (old_phone new_phone : text) (i : nat) (todo : list Phone.t)
  : method t unit :=
  match todo with
  | [] => mret tt
  | phone :: todo' =>
      if bool_decide (Phone.value phone = old_phone)
      then modify (λ self,
             set_phones self (<[i := Phone.mk new_phone]> (phones self)))
      else edit_loop old_phone new_phone (S i) todo'
  end.

Definition edit_phone `{UnicodeData} (old_phone new_phone : text) : method t unit :=
  if negb (Phone.validate new_phone) then raise ValueError
  else self ← get; edit_loop old_phone new_phone 0 (phones self).

(** [None] is the value returned when no phone matches. *)
Fixpoint find_loop (phone : text) (todo : list Phone.t) : option Phone.t :=
  match todo with
  | [] => None
  | p :: todo' =>
      if bool_decide (Phone.value p = phone) then Some p
      else find_loop phone todo'
  end.

Definition find_phone (self : t) (phone : text) : option Phone.t :=
  find_loop phone (phones self).

Definition add_birthday `{UnicodeData} (birthday : text) : method t unit :=
  b ← lift (Birthday.init birthday);
  modify (λ self, set_birthday self (Some b)).

Fixpoint join (sep : text) (parts : list text) : text :=
  match parts with
  | [] => []
  | [x] => x
  | x :: rest => x ++ sep ++ join sep rest
  end.

Definition str (self : t) : text :=
  let phones_str := join (txt "; ") (Phone.value <$> phones self) in
  let birthday_str :=
    match birthday self with
    | Some b => txt ", Birthday: " ++ datetime.strftime_dmY (Birthday.value b)
    | None => []
    end in
  txt "Contact name: " ++ Name.value (name self) ++ txt ", phones: "
  ++ phones_str ++ birthday_str.

(** The mutating calls a client can make on a record. *)
Inductive call :=
| AddPhone (phone : text)
| RemovePhone (phone : text)
| EditPhone (old_phone new_phone : text)
| AddBirthday (birthday : text).

Definition perform `{UnicodeData} (c : call) : method t unit :=
  match c with
  | AddPhone p => add_phone p
  | RemovePhone p => remove_phone p
  | EditPhone o n => edit_phone o n
  | AddBirthday b => add_birthday b
  end.

(** Every stored phone passes [Phone.validate]. *)
Definition phones_valid `{UnicodeData} (self : t) : Prop :=
  Forall (λ p, Phone.validate (Phone.value p) = true) (phones self).

(** Records built by the constructor and then driven through any sequence
    of calls, whether a call returns or raises. *)
Inductive reachable `{UnicodeData} : t → Prop :=
| reach_init n r : init n = OK r → reachable r
| reach_call c r : reachable r → reachable (perform c r).1.

End Record.

(** ** Insertion-ordered dictionaries with text keys

    Iteration follows insertion order; assigning to a key that is present
    keeps its position. *)

Module dict.

Fixpoint getitem {V} (d : list (text * V)) (k : text) : option V :=
  match d with
  | [] => None
  | (k', v) :: d' => if bool_decide (k' = k) then Some v else getitem d' k
  end.

Definition contains {V} (d : list (text * V)) (k : text) : bool :=
  match getitem d k with Some _ => true | None => false end.

Fixpoint setitem {V} (d : list (text * V)) (k : text) (v : V) : list (text * V) :=
  match d with
  | [] => [(k, v)]
  | (k', v') :: d' =>
      if bool_decide (k' = k) then (k', v) :: d'
      else (k', v') :: setitem d' k v
  end.

Fixpoint remove {V} (d : list (text * V)) (k : text) : list (text * V) :=
  match d with
  | [] => []
  | (k', v') :: d' =>
      if bool_decide (k' = k) then d' else (k', v') :: remove d' k
  end.

(** [del d[k]] raises [KeyError] when the key is absent. *)
Definition delitem {V} (k : text) : method (list (text * V)) unit :=
  d ← get;
  if contains d k then modify (λ d, remove d k) else raise KeyError.

Definition values {V} (d : list (text * V)) : list V := d.*2.

Definition keys {V} (d : list (text * V)) : list text := d.*1.

End dict.

(** ** The address book *)

Module AddressBook.

(** [self.data] *)
Abbreviation t := (list (text * Record.t)).

Definition add_record (record : Record.t) : method t unit :=
  modify (λ data, dict.setitem data (Name.value (Record.name record)) record).

Definition find (self : t) (name : text) : option Record.t :=
  dict.getitem self name.

Definition delete (name : text) : method t unit :=
  data ← get;
  if dict.contains data name then dict.delitem name else mret tt.

(** The body of the loop over [self.data.values()]. *)
Fixpoint upcoming_loop (today next_week : datetime.t) (records : list Record.t)
    (upcoming_birthdays : list (text * Birthday.t))
  : result (list (text * Birthday.t)) :=
  match records with
  | [] => OK upcoming_birthdays
  | record :: records' =>
      match Record.birthday record with
      | Some b =>
          birthday_date ← datetime.replace_year (Birthday.value b) (datetime.year today);
          birthday_date ←
            (if datetime.lt birthday_date today
             then datetime.replace_year birthday_date (datetime.year today + 1)
             else OK birthday_date);
          upcoming_loop today next_week records'
            (if datetime.le today birthday_date && datetime.le birthday_date next_week
             then upcoming_birthdays ++ [(Name.value (Record.name record), b)]
             else upcoming_birthdays)
      | None => upcoming_loop today next_week records' upcoming_birthdays
      end
  end.

(** [today] stands for the value of [datetime.today()] read by the call. *)
Definition get_upcoming_birthdays (self : t) (today : datetime.t)
  : result (list (text * Birthday.t)) :=
  next_week ← datetime.add_days today 7;
  upcoming_loop today next_week (dict.values self) [].

(** What a client can do to a book: add a record it has built, delete a
    name, or call a method on a stored record.  The book holds references:
    a call on a record that is in the book changes the stored entry.  A
    record object is only ever stored under its own name, which no method
    changes, so the call changes the one entry under that name, and is
    modelled as [OnRecord]. *)
Inductive action :=
| AddRecord (record : Record.t)
| Delete (name : text)
| OnRecord (name : text) (c : Record.call).

Definition act `{UnicodeData} (a : action) : method t unit :=
  match a with
  | AddRecord r => add_record r
  | Delete n => delete n
  | OnRecord n c =>
      data ← get;
      match find data n with
      | Some r => modify (λ data, dict.setitem data n (Record.perform c r).1)
      | None => mret tt
      end
  end.

(** Keys are unique, and each key is the name of the record stored under
    it. *)
Definition well_keyed (self : t) : Prop :=
  NoDup (dict.keys self)
  ∧ Forall (λ '(k, r), Name.value (Record.name r) = k) self.

(** A value the constructor accepts, as [datetime.today()] returns. *)
Definition valid_datetime (dt : datetime.t) : Prop :=
  datetime.new (datetime.year dt) (datetime.month dt) (datetime.day dt)
    (datetime.hour dt) (datetime.minute dt) (datetime.second dt)
    (datetime.microsecond dt) = OK dt.

Definition birthdays_at_midnight (records : list Record.t) : Prop :=
  Forall (λ r, ∀ b, Record.birthday r = Some b →
                    datetime.midnight (Birthday.value b)) records.

Definition leap_day (b : Birthday.t) : Prop :=
  datetime.month (Birthday.value b) = 2 ∧ datetime.day (Birthday.value b) = 29.

Inductive reachable `{UnicodeData} : t → Prop :=
| reach_empty : reachable []
| reach_act a book :
    reachable book →
    (∀ r, a = AddRecord r → Record.reachable r) →
    reachable (act a book).1.

End AddressBook.

(** ** The commands

    The handlers of [main.py] and the body of the loop of [main], over the
    book, the lines printed so far and the books handed to [save_data].
    What the loop reads is an argument: [words] is
    [input(...).strip().split()], and [today] is the value of
    [datetime.today()] at the call. *)

Module bot.

(** A piece of a printed line: characters, or the text of an exception
    raised inside the datetime library, which is not spelled out here. *)
Inductive piece :=
| Chars (t : text)
| TextOf (e : exn).

Abbreviation line := (list piece).

(** The exception classes the handlers tell apart: those of the core, and
    [IndexError], which only the commands raise. *)
Inductive exc_class :=
| Core (e : exn)
| IndexError.

(** An exception with [str(e)]. *)
Record exception := mk_exception { cls : exc_class; message : line }.

Record world := mk_world {
  book : AddressBook.t;
  printed : list line;
  saved : list AddressBook.t
}.

Inductive outcome (A : Type) :=
| Returned (a : A)
| Raised (x : exception).
Arguments Returned {A} a.
Arguments Raised {A} x.

Definition command (A : Type) : Type := world → world * outcome A.

#[export] Instance command_ret : MRet command := fun A a w => (w, Returned a).
#[export] Instance command_bind : MBind command := fun A B f m w =>
  match m w with
  | (w', Returned a) => f a w'
  | (w', Raised x) => (w', Raised x)
  end.

Definition print (l : line) : command unit := fun w =>
  (mk_world (book w) (printed w ++ [l]) (saved w), Returned tt).

Definition throw {A} (x : exception) : command A := fun w => (w, Raised x).

(** [try: body except ...]: [handler x] is the clause that catches [x], if
    there is one. *)
Definition try_except {A} (body : command A)
    (handler : exception → option (command A)) : command A := fun w =>
  match body w with
  | (w', Returned a) => (w', Returned a)
  | (w', Raised x) =>
      match handler x with
      | Some h => h w'
      | None => (w', Raised x)
      end
  end.

Fixpoint for_each {A} (l : list A) (f : A → command unit) : command unit :=
  match l with
  | [] => mret tt
  | x :: l' => f x ;; for_each l' f
  end.

(** The world after one more line is printed, and with another book. *)
Definition say (w : world) (l : line) : world :=
  mk_world (book w) (printed w ++ [l]) (saved w).

Definition with_book (w : world) (b : AddressBook.t) : world :=
  mk_world b (printed w) (saved w).

(** [book.find(name)] *)
Definition find (name : text) : command (option Record.t) := fun w =>
  (w, Returned (AddressBook.find (book w) name)).

(** [book.add_record(record)] *)
Definition add_record (record : Record.t) : command unit := fun w =>
  (mk_world (AddressBook.add_record record (book w)).1 (printed w) (saved w),
   Returned tt).

(** A call of methods on [record], the object that [book.find(name)]
    returned: the book holds that object under [name], so its entry changes
    with it, also when the call raises.  [text] is [str(e)] of the
    exception the call can raise. *)
Definition on_record {A} (name : text) (record : Record.t) (text : line)
    (m : method Record.t A) : command A := fun w =>
  let '(record', r) := m record in
  (mk_world (dict.setitem (book w) name record') (printed w) (saved w),
   match r with
   | OK a => Returned a
   | Raise e => Raised (mk_exception (Core e) text)
   end).

(** [for phone in phones: record.add_phone(phone)] *)
Fixpoint add_phones `{UnicodeData} (phones : list text) : method Record.t unit :=
  match phones with
  | [] => mret tt
  | phone :: phones' => Record.add_phone phone ;; add_phones phones'
  end.

(** The texts of the two [ValueError]s of the core. *)
Definition phone_error : line :=
  [Chars (txt "Invalid phone number. It must contain exactly 10 digits.")].

Definition birthday_error : line :=
  [Chars (txt "Invalid date format. Use DD.MM.YYYY")].

(** The words of the usage texts that are not ASCII. *)
Definition word_name : text := [1110; 1084; 39; 1103]%N.
Definition word_phone : text := [1090; 1077; 1083; 1077; 1092; 1086; 1085]%N.
Definition word_new : text := [1085; 1086; 1074; 1080; 1081]%N.
Definition word_birth_date : text :=
  [1076; 1072; 1090; 1072; 32; 1085; 1072; 1088; 1086; 1076; 1078; 1077;
   1085; 1085; 1103]%N.

Definition usage (command : string) (params : list text) : text :=
  txt "Invalid number of arguments for '" ++ txt command
  ++ txt "' command. Usage: " ++ txt command
  ++ concat ((λ p, txt " [" ++ p ++ txt "]") <$> params).

Definition not_found (name : text) : line :=
  [Chars (txt "Contact '" ++ name ++ txt "' not found.")].

Definition no_phones (name : text) : line :=
  [Chars (txt "No phone numbers found for " ++ name ++ txt ".")].

(** *** [input_error] *)

Definition input_error (func : list text → command unit) (args : list text)
  : command unit :=
  try_except (func args) (λ x,
    Some match cls x with
         | Core ValueError => print (message x)
         | IndexError => print [Chars (txt "Invalid number of arguments.")]
         | Core KeyError => print [Chars (txt "Invalid key.")]
         | Core OverflowError =>
             print (Chars (txt "An unexpected error occurred: ") :: message x)
         end).

(** *** The decorated handlers; [func_] names the function before
    decoration. *)

Definition func_add_birthday `{UnicodeData} (args : list text) : command unit :=
  match args with
  | [name; birthday] =>
      record ← find name;
      match record with
      | Some record =>
          on_record name record birthday_error (Record.add_birthday birthday) ;;
          print [Chars (txt "Birthday added for " ++ name ++ txt ".")]
      | None => print (not_found name)
      end
  | _ =>
      throw (mk_exception IndexError
               [Chars (usage "add-birthday" [word_name; word_birth_date])])
  end.

Definition add_birthday `{UnicodeData} : list text → command unit :=
  input_error func_add_birthday.

Definition func_show_birthday (args : list text) : command unit :=
  match args with
  | [name] =>
      record ← find name;
      match record ≫= Record.birthday with
      | Some b =>
          print [Chars (txt "Birthday for " ++ name ++ txt ": "
                        ++ datetime.strftime_dmY (Birthday.value b))]
      | None =>
          print [Chars (txt "Birthday for contact '" ++ name
                        ++ txt "' not found.")]
      end
  | _ =>
      throw (mk_exception IndexError [Chars (usage "show-birthday" [word_name])])
  end.

Definition show_birthday : list text → command unit :=
  input_error func_show_birthday.

(** [book.get_upcoming_birthdays()], with the clock at [today]. *)
Definition get_upcoming_birthdays (today : datetime.t)
  : command (list (text * Birthday.t)) := fun w =>
  (w, match AddressBook.get_upcoming_birthdays (book w) today with
      | OK l => Returned l
      | Raise e => Raised (mk_exception (Core e) [TextOf e])
      end).

Definition func_birthdays (today : datetime.t) (args : list text) : command unit :=
  upcoming_birthdays ← get_upcoming_birthdays today;
  match upcoming_birthdays with
  | _ :: _ =>
      print [Chars (txt "Upcoming birthdays:")] ;;
      for_each upcoming_birthdays (λ '(name, birthday),
        print [Chars (name ++ txt ": "
                      ++ datetime.strftime_dmY (Birthday.value birthday))])
  | [] => print [Chars (txt "No upcoming birthdays.")]
  end.

Definition birthdays (today : datetime.t) : list text → command unit :=
  input_error (func_birthdays today).

(** *** The branches of the loop of [main] *)

(** [except ValueError as e: print(e)] and [except IndexError as e:
    print(e)]; any other exception is not caught. *)
Definition print_value_or_index_error (x : exception) : option (command unit) :=
  match cls x with
  | Core ValueError | IndexError => Some (print (message x))
  | Core _ => None
  end.

Definition do_add `{UnicodeData} (args : list text) : command unit :=
  try_except
    match args with
    | name :: (_ :: _) as phones =>
        record ← find name;
        match record with
        | Some record =>
            on_record name record phone_error (add_phones phones) ;;
            print [Chars (txt "Added phone(s) for existing contact '" ++ name
                          ++ txt "'.")]
        | None =>
            match Record.init name with
            | OK new_record =>
                match add_phones phones new_record with
                | (new_record, OK _) =>
                    add_record new_record ;;
                    print [Chars (txt "New contact '" ++ name
                                  ++ txt "' added with phone(s).")]
                | (_, Raise e) => throw (mk_exception (Core e) phone_error)
                end
            | Raise e => throw (mk_exception (Core e) [TextOf e])
            end
        end
    | _ =>
        throw (mk_exception IndexError
                 [Chars (usage "add" [word_name; word_phone])])
    end
    print_value_or_index_error.

Definition do_change `{UnicodeData} (args : list text) : command unit :=
  try_except
    match args with
    | [name; new_phone] =>
        record ← find name;
        match record with
        | Some record =>
            match Phone.value <$> Record.phones record with
            | old_phone :: _ =>
                on_record name record phone_error
                  (Record.edit_phone old_phone new_phone) ;;
                print [Chars (txt "Phone number changed for contact '" ++ name
                              ++ txt "'.")]
            | [] => print (no_phones name)
            end
        | None => print (not_found name)
        end
    | _ =>
        throw (mk_exception IndexError
                 [Chars (usage "change" [word_name; word_new ++ txt " " ++ word_phone])])
    end
    print_value_or_index_error.

(** [str(phone)] is [Field.__str__]: the value itself. *)
Definition do_phone (args : list text) : command unit :=
  match args with
  | [name] =>
      record ← find name;
      match record with
      | Some record =>
          match Record.phones record with
          | _ :: _ =>
              print [Chars (txt "Phone(s) for " ++ name ++ txt ": "
                            ++ Record.join (txt ", ")
                                 (Phone.value <$> Record.phones record))]
          | [] => print (no_phones name)
          end
      | None => print (not_found name)
      end
  | _ => print [Chars (usage "phone" [word_name])]
  end.

Definition do_all : command unit := fun w =>
  match book w with
  | _ :: _ =>
      (print [Chars (txt "All contacts:")] ;;
       for_each (dict.values (book w)) (λ record, print [Chars (Record.str record)])) w
  | [] => print [Chars (txt "No contacts found.")] w
  end.

(** [save_data(book)]: the book is handed to the persistence layer. *)
Definition save_data : command unit := fun w =>
  (mk_world (book w) (printed w) (saved w ++ [book w]), Returned tt).

Inductive control := Continue | Break.

Definition is_command (command : text) (name : string) : bool :=
  bool_decide (command = txt name).

(** One turn of the loop of [main]. *)
Definition main_body `{UnicodeData} (today : datetime.t) (words : list text)
  : command control :=
  match words with
  | [] =>
      print [Chars (txt "No command entered. Please try again.")] ;;
      mret Continue
  | command :: args =>
      if is_command command "close" || is_command command "exit" then
        print [Chars (txt "Good bye!")] ;; save_data ;; mret Break
      else if is_command command "hello" then
        print [Chars (txt "How can I help you?")] ;; mret Continue
      else if is_command command "add" then do_add args ;; mret Continue
      else if is_command command "change" then do_change args ;; mret Continue
      else if is_command command "phone" then do_phone args ;; mret Continue
      else if is_command command "all" then do_all ;; mret Continue
      else if is_command command "add-birthday" then
        add_birthday args ;; mret Continue
      else if is_command command "show-birthday" then
        show_birthday args ;; mret Continue
      else if is_command command "birthdays" then
        birthdays today args ;; mret Continue
      else print [Chars (txt "Invalid command.")] ;; mret Continue
  end.

(** The turns of [while True] on the inputs read so far, each with the
    clock at its time: the loop ends at the turn that breaks; when the
    given inputs are used up it would go on reading, and the turns made
    are returned. *)
Fixpoint main_loop `{UnicodeData} (inputs : list (datetime.t * list text))
  : command unit :=
  match inputs with
  | [] => mret tt
  | (today, words) :: inputs' =>
      c ← main_body today words;
      match c with
      | Break => mret tt
      | Continue => main_loop inputs'
      end
  end.

End bot.

(** ** The specification's reading of two operations

    These definitions follow the words of the specification, not the code;
    the theorems compare them with the definitions above.  [DMY] states in
    the same style which texts the parser accepts and what it reads in
    them; that it does is a theorem. *)

(** The fixed pattern DD.MM.YYYY: two digits, a dot, two digits, a dot and
    four digits, denoting a real calendar date. *)
Module DDMMYYYY.

Definition digit (c : N) : option Z :=
  if ascii_digit c then Some (Z.of_N c - 48) else None.

(** Day, month and year written in the text. *)
Definition fields (s : text) : option (Z * Z * Z) :=
  match s with
  | [d1; d2; p; m1; m2; q; y1; y2; y3; y4] =>
      if bool_decide (p = chr "." ∧ q = chr ".") then
        d1 ← digit d1; d2 ← digit d2;
        m1 ← digit m1; m2 ← digit m2;
        y1 ← digit y1; y2 ← digit y2; y3 ← digit y3; y4 ← digit y4;
        Some (10 * d1 + d2, 10 * m1 + m2,
              1000 * y1 + 100 * y2 + 10 * y3 + y4)
      else None
  | _ => None
  end.

Definition real_date (d m y : Z) : bool :=
  (1 <=? y) && (1 <=? m) && (m <=? 12)
  && (1 <=? d) && (d <=? datetime.days_in_month y m).

Definition valid (s : text) : bool :=
  match fields s with
  | Some (d, m, y) => real_date d m y
  | None => false
  end.

Fixpoint drop_zeros (t : text) : text :=
  match t with
  | c :: t' => if bool_decide (c = chr "0") then drop_zeros t' else t
  | [] => []
  end.

(** A text of the pattern with the leading zeros of its year left out:
    [01.01.0999] becomes [01.01.999]. *)
Definition short_year (s : text) : text := take 6 s ++ drop_zeros (drop 6 s).

End DDMMYYYY.

(** The same notation read leniently: day, dot, month, dot, year, where the
    day and the month may be written with one digit, a one-digit day also
    after a blank, and the year has four digits.  A digit is one of
    [0]..[9]; in the year, and after a first day digit [1] or [2], any
    decimal digit of Unicode is read as well, with its value. *)
Module DMY.

(** The text before the first dot and the text after it. *)
Fixpoint cut (s : text) : option (text * text) :=
  match s with
  | [] => None
  | c :: s' =>
      if bool_decide (c = chr ".") then Some ([], s')
      else '(u, v) ← cut s'; Some (c :: u, v)
  end.

Definition one_to_nine (c : N) : option Z :=
  v ← DDMMYYYY.digit c; if 1 <=? v then Some v else None.

Definition any_digit `{UnicodeData} (c : N) : option Z :=
  Z.of_N <$> decimal_value c.

Definition day `{UnicodeData} (t : text) : option Z :=
  match t with
  | [a] => one_to_nine a
  | [a; b] =>
      if bool_decide (a = chr " ") then one_to_nine b
      else
        x ← DDMMYYYY.digit a;
        y ← (if (1 <=? x) && (x <=? 2) then any_digit b else DDMMYYYY.digit b);
        Some (10 * x + y)
  | _ => None
  end.

Definition month (t : text) : option Z :=
  match t with
  | [a] => one_to_nine a
  | [a; b] => x ← DDMMYYYY.digit a; y ← DDMMYYYY.digit b; Some (10 * x + y)
  | _ => None
  end.

Definition year `{UnicodeData} (t : text) : option Z :=
  match t with
  | [a; b; c; d] =>
      a ← any_digit a; b ← any_digit b; c ← any_digit c; d ← any_digit d;
      Some (1000 * a + 100 * b + 10 * c + d)
  | _ => None
  end.

(** Day, month and year written in the text. *)
Definition fields `{UnicodeData} (s : text) : option (Z * Z * Z) :=
  '(d, s') ← cut s; '(m, y) ← cut s';
  d ← day d; m ← month m; y ← year y;
  Some (d, m, y).

(** The date written in the text, when it is a real calendar date of the
    years 1 to 9999. *)
Definition parse `{UnicodeData} (s : text) : option (Z * Z * Z) :=
  '(d, m, y) ← fields s;
  if DDMMYYYY.real_date d m y && (y <=? 9999) then Some (d, m, y) else None.

End DMY.

(** The upcoming-birthday query read on calendar dates, the time of day
    ignored. *)
Module DateOnly.

Definition date : Type := Z * Z * Z.

Definition of_datetime (dt : datetime.t) : date :=
  (datetime.year dt, datetime.month dt, datetime.day dt).

Definition fields (d : date) : list Z := let '(y, m, dd) := d in [y; m; dd].

Definition lt (a b : date) : bool :=
  match datetime.cmp (fields a) (fields b) with Lt => true | _ => false end.

Definition le (a b : date) : bool :=
  match datetime.cmp (fields a) (fields b) with Gt => false | _ => true end.

Definition plus_days (d : date) (n : Z) : date :=
  let '(y, m, dd) := d in datetime.ord2ymd (datetime.ymd2ord y m dd + n).

(** The stored month and day in today's year, or in the next year when that
    date is strictly before today. *)
Definition next_occurrence (today : date) (b : Birthday.t) : date :=
  let '(y, _, _) := today in
  let m := datetime.month (Birthday.value b) in
  let d := datetime.day (Birthday.value b) in
  if lt (y, m, d) today then (y + 1, m, d) else (y, m, d).

Definition in_window (today : date) (b : Birthday.t) : bool :=
  le today (next_occurrence today b)
  && le (next_occurrence today b) (plus_days today 7).

Definition entry (today : date) (record : Record.t) : option (text * Birthday.t) :=
  b ← Record.birthday record;
  if in_window today b then Some (Name.value (Record.name record), b) else None.

Definition upcoming (book : AddressBook.t) (today : datetime.t)
  : list (text * Birthday.t) :=
  omap (entry (of_datetime today)) (dict.values book).

End DateOnly.

(** ** A table for running examples

    Any table serves where a closed instance is needed; this one lists the
    block ARABIC-INDIC DIGIT ZERO..NINE (U+0660..U+0669). *)

#[export] Instance arabic_indic : UnicodeData :=
  {| Nd_value c := if ((1632 <=? c) && (c <=? 1641))%N then Some (c - 1632)%N else None |}.

(** ** Data for the examples *)

Definition john : Record.t :=
  Record.mk (Name.mk (txt "John"))
    [Phone.mk (txt "1111111111"); Phone.mk (txt "0987654321")] None.

Definition with_birthday (name : string) (y m d : Z) : Record.t :=
  Record.mk (Name.mk (txt name)) []
    (Some (Birthday.mk (datetime.mk y m d 0 0 0 0))).

Definition alice : Record.t := with_birthday "Alice" 2000 6 5.
Definition bob : Record.t := with_birthday "Bob" 2000 1 1.
Definition carol : Record.t := with_birthday "Carol" 2000 6 1.
Definition ann : Record.t := with_birthday "Ann" 2000 2 29.

(** * Theorems *)

(** * The matcher and the language of a pattern *)

Lemma elem_of_one ok s m r :
  (m, r) ∈ re.one ok s ↔ ∃ c, s = c :: r ∧ m = [c] ∧ ok c = true.
Proof.
  unfold re.one. destruct s as [|c s'].
  - split; [by intros ?%elem_of_nil | by intros (? & ? & _)].
  - destruct (ok c) eqn:Hok.
    + rewrite list_elem_of_singleton. split.
      * intros [= -> ->]. eauto.
      * intros (c' & [= -> ->] & -> & _). done.
    + split; [by intros ?%elem_of_nil|].
      intros (c' & [= -> ->] & _ & ?). congruence.
Qed.

Lemma elem_of_then_ f acc m r :
  (m, r) ∈ re.then_ f acc ↔
  ∃ m1 s1 m2, (m1, s1) ∈ acc ∧ (m2, r) ∈ f s1 ∧ m = m1 ++ m2.
Proof.
  unfold re.then_. rewrite list_elem_of_bind. split.
  - intros ([m1 s1] & Hin & Hacc).
    apply list_elem_of_bind in Hin as ([m2 s2] & Hin & Hf).
    apply list_elem_of_singleton in Hin as [= -> ->]. eauto 10.
  - intros (m1 & s1 & m2 & Hacc & Hf & ->).
    exists (m1, s1). split; [|done].
    apply list_elem_of_bind. exists (m2, r). split; [|done].
    by apply list_elem_of_singleton.
Qed.

Lemma run_sound `{UnicodeData} p s m r :
  (m, r) ∈ re.run p s → s = m ++ r ∧ re.matches p m.
Proof.
  revert s m r. induction p as [c|lo hi| |p IHp q IHq|p IHp q IHq|n p IHp];
    intros s m r; cbn [re.run].
  - intros (c' & -> & -> & ->%bool_decide_eq_true)%elem_of_one.
    split; [done | constructor].
  - intros (c' & -> & -> & [?%N.leb_le ?%N.leb_le]%andb_true_iff)%elem_of_one.
    split; [done | by constructor].
  - intros (c' & -> & -> & ?)%elem_of_one. split; [done | by constructor].
  - intros (m1 & s1 & m2 & [-> ?]%IHp & [-> ?]%IHq & ->)%elem_of_then_.
    split; [by rewrite app_assoc | by constructor].
  - intros [[-> ?]%IHp | [-> ?]%IHq]%elem_of_app;
      (split; [done|]); [by apply re.m_alt_l | by apply re.m_alt_r].
  - revert m r. induction n as [|n IHn]; intros m r.
    + intros [= -> ->]%list_elem_of_singleton. split; [done | constructor].
    + rewrite Nat.iter_succ.
      intros (m1 & s1 & m2 & [-> ?]%IHn & [-> ?]%IHp & ->)%elem_of_then_.
      split; [by rewrite app_assoc | by constructor].
Qed.

Lemma run_complete `{UnicodeData} p u :
  re.matches p u → ∀ r, (u, r) ∈ re.run p (u ++ r).
Proof.
  induction 1 as [c|lo hi c Hc|c Hc|p q u v _ IHu _ IHv|p q u _ IH|p q u _ IH
                 |p|n p u v _ IHu _ IHv]; intros r; cbn [re.run].
  - apply elem_of_one. exists c. by rewrite bool_decide_eq_true_2.
  - apply elem_of_one. exists c. repeat split.
    apply andb_true_iff. split; apply N.leb_le; lia.
  - apply elem_of_one. by exists c.
  - apply elem_of_then_. exists u, (v ++ r), v.
    rewrite <- app_assoc. auto.
  - apply elem_of_app. left. apply IH.
  - apply elem_of_app. right. apply IH.
  - by apply list_elem_of_singleton.
  - rewrite Nat.iter_succ. apply elem_of_then_. exists u, (v ++ r), v.
    rewrite <- app_assoc. split; [apply IHu | auto].
Qed.

Lemma fullmatch_matches `{UnicodeData} p s :
  re.fullmatch p s = true ↔ re.matches p s.
Proof.
  unfold re.fullmatch. rewrite existsb_exists. split.
  - intros ([m r] & Hin%list_elem_of_In & ->%bool_decide_eq_true).
    apply run_sound in Hin as [-> ?]. by rewrite app_nil_r.
  - intros Hm. exists (s, []). split; [|by apply bool_decide_eq_true].
    apply list_elem_of_In. rewrite <- (app_nil_r s) at 2. by apply run_complete.
Qed.

Lemma matches_rep_digit `{UnicodeData} n s :
  re.matches (re.Rep n re.Digit) s ↔
  length s = n ∧ Forall (λ c, is_decimal c = true) s.
Proof.
  split.
  - revert s. induction n as [|n IH]; intros s Hm; inversion Hm; subst.
    + split; [done | constructor].
    + match goal with Hd : re.matches re.Digit _ |- _ => inversion Hd; subst end.
      destruct (IH _ ltac:(eassumption)) as [<- Hall].
      split; [rewrite length_app; simpl; lia|].
      apply Forall_app. split; [done|]. by repeat constructor.
  - revert s. induction n as [|n IH]; intros s [Hlen Hall].
    + destruct s; [constructor | done].
    + destruct (decide (s = [])) as [->|Hne]; [done|].
      destruct (exists_last Hne) as (u & c & ->).
      apply Forall_app in Hall as [Hu Hc]. rewrite length_app in Hlen. simpl in Hlen.
      constructor; [apply IH; split; [lia | done]|].
      constructor. by inversion Hc.
Qed.

Lemma is_decimal_ascii `{UnicodeData} (c : N) :
  (c < 128)%N → is_decimal c = ascii_digit c.
Proof.
  intros Hc. unfold is_decimal, decimal_value.
  destruct (N.ltb_spec c 128); [|lia]. by destruct (ascii_digit c).
Qed.

(** * Phone numbers *)

Lemma validate_iff `{UnicodeData} (t : text) :
  Phone.validate t = true ↔
  length t = 10%nat ∧ Forall (λ c, is_decimal c = true) t.
Proof.
  unfold Phone.validate, Phone.pattern.
  by rewrite fullmatch_matches, matches_rep_digit.
Qed.

(** C3.  [Phone.validate] holds exactly of the texts of ten decimal digits
    (ten characters of the class [\d], no more and no fewer), and
    constructing a [Phone] succeeds exactly on those texts and raises
    [ValueError] on every other. *)
Theorem phone_validate_exact `{UnicodeData} (t : text) :
  (Phone.validate t = true ↔
     length t = 10%nat ∧ Forall (λ c, is_decimal c = true) t)
  ∧ (succeeds (Phone.init t) ↔ Phone.validate t = true)
  ∧ Phone.init t
    = (if Phone.validate t then OK (Phone.mk t) else Raise ValueError).
Proof.
  split; [apply validate_iff|].
  unfold Phone.init, succeeds. destruct (Phone.validate t); cbn.
  - split; [|done]. split; [done|]. intros _. by eexists.
  - split; [|done]. split; [|done]. intros [a Ha]. done.
Qed.

(** On text without characters beyond ASCII the digits are [0]..[9]. *)
Corollary phone_validate_ascii `{UnicodeData} (t : text) :
  Forall (λ c, (c < 128)%N) t →
  (Phone.validate t = true ↔
     length t = 10%nat ∧ Forall (λ c, (48 ≤ c ≤ 57)%N) t).
Proof.
  intros Hascii. rewrite validate_iff.
  split; intros [Hl Hd]; (split; [done|]);
    apply list.Forall_forall; intros c Hc;
    pose proof (proj1 (list.Forall_forall _ _) Hascii c Hc) as Ha;
    pose proof (proj1 (list.Forall_forall _ _) Hd c Hc) as Hdc; cbn in Ha, Hdc.
  - rewrite is_decimal_ascii in Hdc by done.
    unfold ascii_digit in Hdc.
    apply andb_true_iff in Hdc as [?%N.leb_le ?%N.leb_le]. lia.
  - rewrite is_decimal_ascii by done.
    unfold ascii_digit. apply andb_true_iff. split; apply N.leb_le; lia.
Qed.

Example validate_nine_digits `{UnicodeData} :
  Phone.validate (txt "123456789") = false.
Proof. reflexivity. Qed.

Example validate_ten_digits `{UnicodeData} :
  Phone.validate (txt "1234567890") = true.
Proof. reflexivity. Qed.

Example validate_eleven_digits `{UnicodeData} :
  Phone.validate (txt "12345678901") = false.
Proof. reflexivity. Qed.

Example validate_with_letter `{UnicodeData} :
  Phone.validate (txt "12345a7890") = false.
Proof. reflexivity. Qed.

Example validate_trailing_newline `{UnicodeData} :
  Phone.validate (txt "1234567890" ++ [10%N]) = false.
Proof. reflexivity. Qed.

(** The class [\d] is wider than [0]..[9]: ten times ARABIC-INDIC DIGIT ONE
    (U+0661) is a valid phone. *)
Example validate_arabic_indic : Phone.validate (replicate 10 1633%N) = true.
Proof. reflexivity. Qed.

(** * Parsing and rendering a birthday *)

Lemma ascii_digit_range c : ascii_digit c = true ↔ (48 ≤ c ≤ 57)%N.
Proof.
  unfold ascii_digit. rewrite andb_true_iff, !N.leb_le. done.
Qed.

Lemma digit_Some c v :
  DDMMYYYY.digit c = Some v → (48 ≤ c ≤ 57)%N ∧ v = Z.of_N c - 48.
Proof.
  unfold DDMMYYYY.digit. destruct (ascii_digit c) eqn:E; [|done].
  intros [= <-]. by apply ascii_digit_range in E.
Qed.

Lemma decimal_value_digit `{UnicodeData} c :
  (48 ≤ c ≤ 57)%N → decimal_value c = Some (c - 48)%N.
Proof.
  intros Hc. unfold decimal_value.
  destruct (N.ltb_spec c 128); [|lia].
  by rewrite (proj2 (ascii_digit_range c)).
Qed.

Lemma is_decimal_digit `{UnicodeData} c : (48 ≤ c ≤ 57)%N → is_decimal c = true.
Proof. intros Hc. unfold is_decimal. by rewrite decimal_value_digit. Qed.

Lemma head_bind_cons {A B} (F : A → list B) x tl y :
  head (F x) = Some y → head ((x :: tl) ≫= F) = Some y.
Proof. cbn. destruct (F x); [done|]. by intros [= ->]. Qed.

Lemma digit_cases (c : N) :
  (48 ≤ c ≤ 57)%N →
  c ∈ [48; 49; 50; 51; 52; 53; 54; 55; 56; 57]%N.
Proof.
  intros Hc. rewrite !elem_of_cons.
  assert (c = 48 ∨ c = 49 ∨ c = 50 ∨ c = 51 ∨ c = 52 ∨ c = 53 ∨ c = 54
          ∨ c = 55 ∨ c = 56 ∨ c = 57)%N by lia.
  tauto.
Qed.

Ltac digit_split c H :=
  let E := fresh in
  pose proof (digit_cases c H) as E;
  rewrite !elem_of_cons in E;
  repeat (destruct E as [->|E]); [..|by apply elem_of_nil in E].

Lemma run_d_fixed `{UnicodeData} a b rest :
  (48 ≤ a ≤ 57)%N → (48 ≤ b ≤ 57)%N →
  1 ≤ 10 * (Z.of_N a - 48) + (Z.of_N b - 48) ≤ 31 →
  ∃ tl, re.run datetime.re_d (a :: b :: rest) = ([a; b], rest) :: tl.
Proof.
  intros Ha Hb Hd.
  digit_split a Ha; digit_split b Hb; try lia; eexists; reflexivity.
Qed.

Lemma run_m_fixed `{UnicodeData} a b rest :
  (48 ≤ a ≤ 57)%N → (48 ≤ b ≤ 57)%N →
  1 ≤ 10 * (Z.of_N a - 48) + (Z.of_N b - 48) ≤ 12 →
  ∃ tl, re.run datetime.re_m (a :: b :: rest) = ([a; b], rest) :: tl.
Proof.
  intros Ha Hb Hd.
  digit_split a Ha; digit_split b Hb; try lia; eexists; reflexivity.
Qed.

Lemma run_Y_fixed `{UnicodeData} a b c d rest :
  (48 ≤ a ≤ 57)%N → (48 ≤ b ≤ 57)%N → (48 ≤ c ≤ 57)%N → (48 ≤ d ≤ 57)%N →
  re.run datetime.re_Y (a :: b :: c :: d :: rest) = [([a; b; c; d], rest)].
Proof.
  intros Ha Hb Hc Hd.
  repeat (cbn -[is_decimal]; rewrite ?is_decimal_digit by done).
  reflexivity.
Qed.

Lemma lstrip_digit c s : (48 ≤ c ≤ 57)%N → datetime.lstrip (c :: s) = c :: s.
Proof.
  intros Hc. cbn. rewrite bool_decide_eq_false_2; [done|].
  unfold chr. cbn. lia.
Qed.

Lemma int_2 `{UnicodeData} a b :
  (48 ≤ a ≤ 57)%N → (48 ≤ b ≤ 57)%N →
  datetime.int [a; b] = OK (10 * (Z.of_N a - 48) + (Z.of_N b - 48)).
Proof.
  intros Ha Hb. unfold datetime.int. rewrite lstrip_digit by done.
  cbn [datetime.int_digits]. rewrite !decimal_value_digit by done.
  f_equal. lia.
Qed.

Lemma int_4 `{UnicodeData} a b c d :
  (48 ≤ a ≤ 57)%N → (48 ≤ b ≤ 57)%N → (48 ≤ c ≤ 57)%N → (48 ≤ d ≤ 57)%N →
  datetime.int [a; b; c; d]
  = OK (1000 * (Z.of_N a - 48) + 100 * (Z.of_N b - 48)
        + 10 * (Z.of_N c - 48) + (Z.of_N d - 48)).
Proof.
  intros Ha Hb Hc Hd. unfold datetime.int. rewrite lstrip_digit by done.
  cbn [datetime.int_digits]. rewrite !decimal_value_digit by done.
  f_equal. lia.
Qed.

Lemma days_in_month_bounds y m :
  1 ≤ m ≤ 12 → 28 ≤ datetime.days_in_month y m ≤ 31.
Proof.
  intros Hm. unfold datetime.days_in_month.
  assert (m = 1 ∨ m = 2 ∨ m = 3 ∨ m = 4 ∨ m = 5 ∨ m = 6 ∨ m = 7 ∨ m = 8
          ∨ m = 9 ∨ m = 10 ∨ m = 11 ∨ m = 12) as Hcases by lia.
  repeat (destruct Hcases as [->|Hcases]); try subst m;
    unfold datetime.table; destruct (datetime.is_leap y); vm_compute; split; discriminate.
Qed.

Lemma new_midnight y m d :
  DDMMYYYY.real_date d m y = true → y ≤ 9999 →
  datetime.new y m d 0 0 0 0 = OK (datetime.mk y m d 0 0 0 0).
Proof.
  unfold DDMMYYYY.real_date, datetime.new, datetime.between,
    datetime.MINYEAR, datetime.MAXYEAR.
  rewrite !andb_true_iff, !Z.leb_le. intros [[[[Hy Hm1] Hm2] Hd1] Hd2] Hy2.
  repeat match goal with
  | |- context [?a <=? ?b] =>
      rewrite (proj2 (Z.leb_le a b)) by first [done | lia]
  end.
  reflexivity.
Qed.

Lemma zfill2_digits a b :
  (48 ≤ a ≤ 57)%N → (48 ≤ b ≤ 57)%N →
  datetime.zfill2 (10 * (Z.of_N a - 48) + (Z.of_N b - 48)) = [a; b].
Proof.
  intros Ha Hb. unfold datetime.zfill2, datetime.digit_chr.
  f_equal; [|f_equal]; Z.div_mod_to_equations; lia.
Qed.

(** The fuel of [decimal] is enough for every year of a datetime: the
    digits written are those of the number, the first of them not a
    zero. *)
Lemma decimal_small z :
  0 ≤ z ≤ 9999 →
  datetime.decimal z
  = if z <? 10 then [datetime.digit_chr z]
    else if z <? 100 then
      [datetime.digit_chr (z / 10); datetime.digit_chr (z mod 10)]
    else if z <? 1000 then
      [datetime.digit_chr (z / 100); datetime.digit_chr (z / 10 mod 10);
       datetime.digit_chr (z mod 10)]
    else
      [datetime.digit_chr (z / 1000); datetime.digit_chr (z / 100 mod 10);
       datetime.digit_chr (z / 10 mod 10); datetime.digit_chr (z mod 10)].
Proof.
  intros Hz. unfold datetime.decimal.
  destruct (Z.ltb_spec z 10) as [H10|H10].
  { cbn [datetime.decimal_loop]. rewrite (proj2 (Z.ltb_lt z 10)) by done.
    by rewrite Z.mod_small by lia. }
  pose proof (Z.log2_le_mono 10 z H10) as Hl10.
  change (Z.log2 10) with 3 in Hl10.
  destruct (Z.ltb_spec z 100) as [H100|H100].
  { destruct (Z.to_nat (Z.log2 z)) as [|n] eqn:E; [lia|].
    cbn [datetime.decimal_loop].
    rewrite (proj2 (Z.ltb_ge z 10)), (proj2 (Z.ltb_lt (z / 10) 10))
      by (try apply Z.div_lt_upper_bound; lia).
    repeat f_equal. apply Z.mod_small. split; [|apply Z.div_lt_upper_bound; lia].
    apply Z.div_pos; lia. }
  pose proof (Z.log2_le_mono 100 z H100) as Hl100.
  change (Z.log2 100) with 6 in Hl100.
  assert (10 ≤ z / 10) by (apply Z.div_le_lower_bound; lia).
  destruct (Z.ltb_spec z 1000) as [H1000|H1000].
  { destruct (Z.to_nat (Z.log2 z)) as [|[|n]] eqn:E; [lia..|].
    cbn [datetime.decimal_loop].
    rewrite (proj2 (Z.ltb_ge z 10)), (proj2 (Z.ltb_ge (z / 10) 10)) by lia.
    rewrite Z.div_div by lia. change (10 * 10) with 100.
    assert (0 ≤ z / 100 < 10)
      by (split; [apply Z.div_pos | apply Z.div_lt_upper_bound]; lia).
    rewrite (proj2 (Z.ltb_lt (z / 100) 10)) by lia.
    repeat f_equal. apply Z.mod_small. lia. }
  pose proof (Z.log2_le_mono 1000 z H1000) as Hl1000.
  change (Z.log2 1000) with 9 in Hl1000.
  assert (10 ≤ z / 100) by (apply Z.div_le_lower_bound; lia).
  destruct (Z.to_nat (Z.log2 z)) as [|[|[|n]]] eqn:E; [lia..|].
  cbn [datetime.decimal_loop].
  rewrite (proj2 (Z.ltb_ge z 10)), (proj2 (Z.ltb_ge (z / 10) 10)) by lia.
  rewrite Z.div_div by lia. change (10 * 10) with 100.
  rewrite (proj2 (Z.ltb_ge (z / 100) 10)) by lia.
  rewrite Z.div_div by lia. change (100 * 10) with 1000.
  assert (0 ≤ z / 1000 < 10)
    by (split; [apply Z.div_pos | apply Z.div_lt_upper_bound]; lia).
  rewrite (proj2 (Z.ltb_lt (z / 1000) 10)) by lia.
  repeat f_equal. apply Z.mod_small. lia.
Qed.

Lemma decimal_digits a b c d :
  (48 ≤ a ≤ 57)%N → (48 ≤ b ≤ 57)%N → (48 ≤ c ≤ 57)%N → (48 ≤ d ≤ 57)%N →
  1 ≤ 1000 * (Z.of_N a - 48) + 100 * (Z.of_N b - 48)
      + 10 * (Z.of_N c - 48) + (Z.of_N d - 48) →
  datetime.decimal (1000 * (Z.of_N a - 48) + 100 * (Z.of_N b - 48)
                    + 10 * (Z.of_N c - 48) + (Z.of_N d - 48))
  = DDMMYYYY.drop_zeros [a; b; c; d].
Proof.
  intros Ha Hb Hc Hd Hy. rewrite decimal_small by lia.
  cbn [DDMMYYYY.drop_zeros]. unfold chr. cbn [N_of_ascii N_of_digits N.add N.mul].
  repeat case_bool_decide; subst;
    repeat match goal with
    | |- context [?x <? ?y] => destruct (Z.ltb_spec x y); try lia
    end;
    unfold datetime.digit_chr; repeat f_equal; Z.div_mod_to_equations; lia.
Qed.

Lemma drop_zeros_length t : (length (DDMMYYYY.drop_zeros t) ≤ length t)%nat.
Proof.
  induction t as [|c t IH]; cbn; [done|]. case_bool_decide; cbn; lia.
Qed.

Lemma fields_inv s d m y :
  DDMMYYYY.fields s = Some (d, m, y) →
  ∃ d1 d2 m1 m2 y1 y2 y3 y4,
    s = [d1; d2; chr "."; m1; m2; chr "."; y1; y2; y3; y4]
    ∧ Forall (λ c, (48 ≤ c ≤ 57)%N) [d1; d2; m1; m2; y1; y2; y3; y4]
    ∧ d = 10 * (Z.of_N d1 - 48) + (Z.of_N d2 - 48)
    ∧ m = 10 * (Z.of_N m1 - 48) + (Z.of_N m2 - 48)
    ∧ y = 1000 * (Z.of_N y1 - 48) + 100 * (Z.of_N y2 - 48)
          + 10 * (Z.of_N y3 - 48) + (Z.of_N y4 - 48).
Proof.
  unfold DDMMYYYY.fields.
  do 11 (destruct s as [|? s]; try done).
  case_bool_decide as Hdots; [|done]. destruct Hdots as [-> ->].
  intros Hf.
  repeat match type of Hf with
  | (DDMMYYYY.digit ?c ≫= _) = _ =>
      let E := fresh "E" in
      destruct (DDMMYYYY.digit c) eqn:E; cbn in Hf; [|done];
      apply digit_Some in E as [? ->]
  end.
  injection Hf as <- <- <-.
  eexists _, _, _, _, _, _, _, _. split; [done|].
  split; [by repeat first [apply Forall_nil_2 | apply Forall_cons_2] | done].
Qed.

(** Leaving out the leading zeros of the year changes the text exactly
    when the year is below 1000. *)
Lemma short_year_same s d m y :
  DDMMYYYY.fields s = Some (d, m, y) →
  DDMMYYYY.short_year s = s ↔ 1000 ≤ y.
Proof.
  intros (d1 & d2 & m1 & m2 & y1 & y2 & y3 & y4 & -> & Hdig & -> & -> & ->)%fields_inv.
  repeat match goal with H : Forall _ (_ :: _) |- _ => inversion_clear H end.
  unfold DDMMYYYY.short_year. cbn [take drop app DDMMYYYY.drop_zeros].
  case_bool_decide as Hz.
  - subst y1. split; [|unfold chr; cbn; lia].
    intros Heq. apply (f_equal length) in Heq. cbn in Heq.
    pose proof (drop_zeros_length [y2; y3; y4]). cbn in *. lia.
  - split; [|done]. intros _.
    assert (y1 ≠ 48%N) by done. lia.
Qed.

Lemma run_dot `{UnicodeData} rest :
  re.run datetime.re_dot (chr "." :: rest) = [([chr "."], rest)].
Proof. reflexivity. Qed.

Lemma match_dmY_fixed `{UnicodeData} d1 d2 m1 m2 y1 y2 y3 y4 :
  Forall (λ c, (48 ≤ c ≤ 57)%N) [d1; d2; m1; m2; y1; y2; y3; y4] →
  1 ≤ 10 * (Z.of_N d1 - 48) + (Z.of_N d2 - 48) ≤ 31 →
  1 ≤ 10 * (Z.of_N m1 - 48) + (Z.of_N m2 - 48) ≤ 12 →
  datetime.match_dmY [d1; d2; chr "."; m1; m2; chr "."; y1; y2; y3; y4]
  = Some ([d1; d2], [m1; m2], [y1; y2; y3; y4], []).
Proof.
  intros Hdig Hd Hm.
  repeat match goal with H : Forall _ (_ :: _) |- _ => inversion_clear H end.
  unfold datetime.match_dmY.
  edestruct (run_d_fixed d1 d2) as [tl ->]; [done..|].
  apply head_bind_cons. rewrite run_dot.
  apply head_bind_cons.
  edestruct (run_m_fixed m1 m2) as [tl' ->]; [done..|].
  apply head_bind_cons. rewrite run_dot.
  apply head_bind_cons.
  rewrite run_Y_fixed by done. reflexivity.
Qed.

Lemma strptime_fixed `{UnicodeData} s d m y :
  DDMMYYYY.fields s = Some (d, m, y) →
  DDMMYYYY.real_date d m y = true →
  datetime.strptime_dmY s = OK (datetime.mk y m d 0 0 0 0)
  ∧ datetime.strftime_dmY (datetime.mk y m d 0 0 0 0) = DDMMYYYY.short_year s.
Proof.
  intros (d1 & d2 & m1 & m2 & y1 & y2 & y3 & y4 & -> & Hdig & -> & -> & ->)%fields_inv
    Hreal.
  repeat match goal with H : Forall _ (_ :: _) |- _ => inversion_clear H end.
  assert (Hr := Hreal). unfold DDMMYYYY.real_date in Hr.
  rewrite !andb_true_iff, !Z.leb_le in Hr.
  destruct Hr as [[[[Hy Hm1] Hm2] Hd1] Hd2].
  split.
  - pose proof (days_in_month_bounds
      (1000 * (Z.of_N y1 - 48) + 100 * (Z.of_N y2 - 48)
       + 10 * (Z.of_N y3 - 48) + (Z.of_N y4 - 48)) _ (conj Hm1 Hm2)).
    unfold datetime.strptime_dmY.
    rewrite match_dmY_fixed; [| by repeat first [apply Forall_nil_2 | apply Forall_cons_2] | lia..].
    rewrite int_2, int_2, int_4 by done. cbn [mbind result_bind].
    apply new_midnight; [done | lia].
  - unfold datetime.strftime_dmY. cbn [datetime.day datetime.month datetime.year].
    rewrite zfill2_digits, zfill2_digits, decimal_digits by done. reflexivity.
Qed.

Lemma head_elem_of {A} (l : list A) x : head l = Some x → x ∈ l.
Proof. destruct l; [done|]. intros [= ->]. apply elem_of_cons. by left. Qed.

Lemma match_dmY_sound `{UnicodeData} s d m y rest :
  datetime.match_dmY s = Some (d, m, y, rest) →
  s = d ++ [chr "."] ++ m ++ [chr "."] ++ y ++ rest
  ∧ re.matches datetime.re_d d
  ∧ re.matches datetime.re_m m
  ∧ re.matches datetime.re_Y y.
Proof.
  unfold datetime.match_dmY. intros Hin%head_elem_of.
  apply list_elem_of_bind in Hin as ([d' s1] & Hin & [-> Hd]%run_sound).
  apply list_elem_of_bind in Hin as ([p1 s2] & Hin & [-> Hp1]%run_sound).
  apply list_elem_of_bind in Hin as ([m' s3] & Hin & [-> Hm]%run_sound).
  apply list_elem_of_bind in Hin as ([p2 s4] & Hin & [-> Hp2]%run_sound).
  apply list_elem_of_bind in Hin as ([y' s5] & Hin & [-> Hy]%run_sound).
  apply list_elem_of_singleton in Hin as [= <- <- <- <-].
  inversion Hp1; inversion Hp2; subst. done.
Qed.

Lemma new_inv y m d hh mm ss us dt :
  datetime.new y m d hh mm ss us = OK dt →
  dt = datetime.mk y m d hh mm ss us
  ∧ 1 ≤ y ≤ 9999 ∧ 1 ≤ m ≤ 12 ∧ 1 ≤ d ≤ datetime.days_in_month y m.
Proof.
  unfold datetime.new, datetime.between, datetime.MINYEAR, datetime.MAXYEAR.
  repeat match goal with
  | |- context [negb (?a && ?b)] =>
      let E := fresh "E" in destruct (a && b) eqn:E; cbn [negb]; [|done]
  end.
  intros [= <-].
  repeat match goal with
  | E : _ && _ = true |- _ => apply andb_true_iff in E as [?%Z.leb_le ?%Z.leb_le]
  end.
  done.
Qed.

Lemma new_raises y m d hh mm ss us e :
  datetime.new y m d hh mm ss us = Raise e → e = ValueError.
Proof.
  unfold datetime.new.
  repeat match goal with
  | |- context [if ?b then _ else _] => destruct b
  end; congruence.
Qed.

Lemma int_raises `{UnicodeData} s e : datetime.int s = Raise e → e = ValueError.
Proof.
  unfold datetime.int. destruct (datetime.lstrip s); [congruence|].
  destruct (datetime.int_digits _ _); congruence.
Qed.

Lemma strptime_raises `{UnicodeData} s e :
  datetime.strptime_dmY s = Raise e → e = ValueError.
Proof.
  unfold datetime.strptime_dmY.
  destruct (datetime.match_dmY s) as [[[[d m] y] rest]|]; [|congruence].
  destruct rest; [|congruence].
  destruct (datetime.int d) eqn:Ed; cbn; [|by intros [= <-]; eapply int_raises].
  destruct (datetime.int m) eqn:Em; cbn; [|by intros [= <-]; eapply int_raises].
  destruct (datetime.int y) eqn:Ey; cbn; [|by intros [= <-]; eapply int_raises].
  apply new_raises.
Qed.

Lemma strptime_inv `{UnicodeData} s dt :
  datetime.strptime_dmY s = OK dt →
  (∃ d m y,
     s = d ++ [chr "."] ++ m ++ [chr "."] ++ y
     ∧ re.matches datetime.re_d d ∧ re.matches datetime.re_m m
     ∧ re.matches datetime.re_Y y
     ∧ datetime.int d = OK (datetime.day dt)
     ∧ datetime.int m = OK (datetime.month dt)
     ∧ datetime.int y = OK (datetime.year dt))
  ∧ dt = datetime.mk (datetime.year dt) (datetime.month dt) (datetime.day dt) 0 0 0 0
  ∧ DDMMYYYY.real_date (datetime.day dt) (datetime.month dt) (datetime.year dt) = true
  ∧ datetime.year dt ≤ 9999.
Proof.
  unfold datetime.strptime_dmY.
  destruct (datetime.match_dmY s) as [[[[d m] y] rest]|] eqn:Hm; [|done].
  destruct rest; [|done].
  apply match_dmY_sound in Hm as (-> & Hd & Hmo & Hy).
  destruct (datetime.int d) as [dd|] eqn:Ed; cbn; [|done].
  destruct (datetime.int m) as [mm|] eqn:Em; cbn; [|done].
  destruct (datetime.int y) as [yy|] eqn:Ey; cbn; [|done].
  intros (-> & ? & ? & ?)%new_inv. cbn.
  split; [|split; [done|]].
  - exists d, m, y. by rewrite app_nil_r.
  - split; [|lia]. unfold DDMMYYYY.real_date.
    rewrite !andb_true_iff, !Z.leb_le. lia.
Qed.

Lemma digit_digit_chr z :
  0 ≤ z ≤ 9 → DDMMYYYY.digit (datetime.digit_chr z) = Some z.
Proof.
  intros Hz. unfold DDMMYYYY.digit, datetime.digit_chr.
  rewrite (proj2 (ascii_digit_range _)) by lia. f_equal. lia.
Qed.

Lemma strftime_fields y m d :
  DDMMYYYY.real_date d m y = true → 1000 ≤ y ≤ 9999 →
  DDMMYYYY.fields (datetime.strftime_dmY (datetime.mk y m d 0 0 0 0))
  = Some (d, m, y).
Proof.
  unfold DDMMYYYY.real_date.
  rewrite !andb_true_iff, !Z.leb_le. intros [[[[Hy Hm1] Hm2] Hd1] Hd2] Hy2.
  pose proof (days_in_month_bounds y m (conj Hm1 Hm2)).
  unfold datetime.strftime_dmY, datetime.zfill2.
  cbn [datetime.day datetime.month datetime.year].
  rewrite decimal_small by lia.
  rewrite !(proj2 (Z.ltb_ge y _)) by lia.
  cbn [app DDMMYYYY.fields].
  rewrite bool_decide_eq_true_2 by done.
  rewrite !digit_digit_chr by (Z.div_mod_to_equations; lia).
  cbn. do 2 f_equal; [f_equal|]; Z.div_mod_to_equations; lia.
Qed.

Lemma birthday_init_OK `{UnicodeData} s b :
  Birthday.init s = OK b ↔ datetime.strptime_dmY s = OK (Birthday.value b).
Proof.
  unfold Birthday.init. destruct b as [dt]. cbn.
  destruct (datetime.strptime_dmY s) as [dt'|[]]; split; congruence.
Qed.

(** The day group holds one or two characters, the month group likewise,
    and the year group four. *)
Lemma groups_length `{UnicodeData} d m y :
  re.matches datetime.re_d d → re.matches datetime.re_m m →
  re.matches datetime.re_Y y →
  (1 ≤ length d ≤ 2)%nat ∧ (1 ≤ length m ≤ 2)%nat ∧ length y = 4%nat.
Proof.
  intros Hd Hm Hy. repeat split.
  all: repeat match goal with
       | H : re.matches (datetime.alts _ _) _ |- _ => cbn in H
       | H : re.matches datetime.re_d _ |- _ => unfold datetime.re_d in H
       | H : re.matches datetime.re_m _ |- _ => unfold datetime.re_m in H
       | H : re.matches datetime.re_Y _ |- _ => unfold datetime.re_Y in H
       | H : re.matches (re.Alt _ _) _ |- _ => inversion_clear H
       | H : re.matches (re.Cat _ _) _ |- _ => inversion_clear H
       | H : re.matches (re.Lit _) _ |- _ => inversion_clear H
       | H : re.matches (re.Range _ _) _ |- _ => inversion_clear H
       | H : re.matches re.Digit _ |- _ => inversion_clear H
       end; cbn; lia.
Qed.

(** ** The lenient reading and the parser *)

Lemma cut_app u v : chr "." ∉ u → DMY.cut (u ++ chr "." :: v) = Some (u, v).
Proof.
  induction u as [|c u IH]; cbn [app DMY.cut]; intros Hu.
  - by rewrite bool_decide_eq_true_2.
  - apply not_elem_of_cons in Hu as [Hc Hu].
    rewrite bool_decide_eq_false_2 by done. by rewrite IH.
Qed.

Lemma cut_inv s u v :
  DMY.cut s = Some (u, v) → s = u ++ chr "." :: v ∧ (chr "." ∉ u).
Proof.
  revert u. induction s as [|c s IH]; intros u; cbn [DMY.cut]; [done|].
  case_bool_decide as Hc.
  - intros [= <- <-]. subst c. split; [done | apply not_elem_of_nil].
  - destruct (DMY.cut s) as [[u' v']|]; cbn; [|done].
    intros [= <- <-]. destruct (IH u' eq_refl) as [-> Hu].
    split; [done|]. apply not_elem_of_cons. done.
Qed.

Lemma decimal_value_is_decimal `{UnicodeData} c :
  is_decimal c = true ↔ ∃ v, decimal_value c = Some v.
Proof.
  unfold is_decimal. destruct (decimal_value c) as [v|].
  - split; [eauto | done].
  - split; [done | by intros [? ?]].
Qed.

Lemma decimal_not_ascii_other `{UnicodeData} c v :
  decimal_value c = Some v → c ≠ chr "." ∧ c ≠ chr " ".
Proof. intros Hc. split; intros ->; by cbn in Hc. Qed.

Ltac range_split :=
  repeat match goal with
  | H : (_ ≤ ?c ≤ _)%N |- _ =>
      let H' := fresh in
      assert (48 ≤ c ≤ 57)%N as H' by (clear -H; unfold chr in H; cbn in H; lia);
      unfold chr in H; cbn in H;
      digit_split c H'; try (exfalso; clear -H; lia); clear H
  end.

Ltac group_inv :=
  repeat match goal with
  | H : re.matches (re.Alt _ _) _ |- _ => inversion_clear H
  | H : re.matches (re.Cat _ _) _ |- _ => inversion_clear H
  | H : re.matches (re.Lit _) _ |- _ => inversion_clear H
  | H : re.matches (re.Range _ _) _ |- _ => inversion_clear H
  | H : re.matches re.Digit _ |- _ => inversion_clear H
  end.

Ltac no_dot :=
  cbn; rewrite ?not_elem_of_cons;
  (repeat split); (try done); (try apply not_elem_of_nil).

Lemma lstrip_decimal `{UnicodeData} c s :
  is_decimal c = true → datetime.lstrip (c :: s) = c :: s.
Proof.
  intros [n Hn]%decimal_value_is_decimal. cbn [datetime.lstrip].
  rewrite bool_decide_eq_false_2; [done|].
  by destruct (decimal_not_ascii_other c n Hn).
Qed.

Lemma day_teens `{UnicodeData} a b n :
  (49 ≤ a ≤ 50)%N → decimal_value b = Some n →
  datetime.int [a; b] = OK (10 * (Z.of_N a - 48) + Z.of_N n)
  ∧ DMY.day [a; b] = Some (10 * (Z.of_N a - 48) + Z.of_N n).
Proof.
  intros Ha Hb. split.
  - unfold datetime.int. rewrite lstrip_digit by lia.
    cbn [datetime.int_digits]. rewrite decimal_value_digit, Hb by lia.
    f_equal. lia.
  - unfold DMY.day, DDMMYYYY.digit, DMY.any_digit.
    rewrite bool_decide_eq_false_2 by (unfold chr; cbn; lia).
    rewrite (proj2 (ascii_digit_range a)) by lia. cbn [mbind option_bind].
    rewrite (proj2 (Z.leb_le 1 _)), (proj2 (Z.leb_le _ 2)) by lia.
    by rewrite Hb.
Qed.

(** What the day group matches is read by [int] and by the lenient
    reading alike. *)
Lemma day_group `{UnicodeData} t :
  re.matches datetime.re_d t →
  (chr "." ∉ t) ∧ ∃ v, datetime.int t = OK v ∧ DMY.day t = Some v.
Proof.
  unfold datetime.re_d, datetime.alts. cbn [foldr]. intros Hm. group_inv.
  - range_split; (split; [no_dot | eexists; split; reflexivity]).
  - match goal with
    | Hd : is_decimal ?x = true |- _ =>
        apply decimal_value_is_decimal in Hd as [n Hn];
        destruct (decimal_not_ascii_other x n Hn)
    end.
    split.
    + cbn [app]. rewrite !not_elem_of_cons. split; [|split; [done|]].
      * intros <-. unfold chr in *. cbn in *. lia.
      * apply not_elem_of_nil.
    + eexists. apply day_teens; [|done]. unfold chr in *. cbn in *. lia.
  - range_split; (split; [no_dot | eexists; split; reflexivity]).
  - range_split; (split; [no_dot | eexists; split; reflexivity]).
  - range_split; (split; [no_dot | eexists; split; reflexivity]).
Qed.

Lemma month_group `{UnicodeData} t :
  re.matches datetime.re_m t →
  (chr "." ∉ t) ∧ ∃ v, datetime.int t = OK v ∧ DMY.month t = Some v.
Proof.
  unfold datetime.re_m, datetime.alts. cbn [foldr]. intros Hm. group_inv.
  - range_split; (split; [no_dot | eexists; split; reflexivity]).
  - range_split; (split; [no_dot | eexists; split; reflexivity]).
  - range_split; (split; [no_dot | eexists; split; reflexivity]).
Qed.

Lemma year_digits `{UnicodeData} a b c d na nb nc nd :
  decimal_value a = Some na → decimal_value b = Some nb →
  decimal_value c = Some nc → decimal_value d = Some nd →
  datetime.int [a; b; c; d]
  = OK (1000 * Z.of_N na + 100 * Z.of_N nb + 10 * Z.of_N nc + Z.of_N nd)
  ∧ DMY.year [a; b; c; d]
    = Some (1000 * Z.of_N na + 100 * Z.of_N nb + 10 * Z.of_N nc + Z.of_N nd).
Proof.
  intros Ha Hb Hc Hd. split.
  - unfold datetime.int.
    rewrite lstrip_decimal by (apply decimal_value_is_decimal; eauto).
    cbn [datetime.int_digits]. rewrite Ha, Hb, Hc, Hd. f_equal. lia.
  - unfold DMY.year, DMY.any_digit. by rewrite Ha, Hb, Hc, Hd.
Qed.

Lemma year_group `{UnicodeData} t :
  re.matches datetime.re_Y t →
  length t = 4%nat ∧ ∃ v, datetime.int t = OK v ∧ DMY.year t = Some v.
Proof.
  unfold datetime.re_Y. intros Hm. group_inv.
  repeat match goal with
  | Hd : is_decimal _ = true |- _ =>
      apply decimal_value_is_decimal in Hd as [? ?]
  end.
  split; [done|]. eexists. by apply year_digits.
Qed.

(** Conversely, what the lenient reading reads as a day from 1 to 31 is
    matched by the day group, and likewise for the month and the year. *)
Lemma one_to_nine_Some c v :
  DMY.one_to_nine c = Some v → (49 ≤ c ≤ 57)%N ∧ v = Z.of_N c - 48.
Proof.
  unfold DMY.one_to_nine.
  destruct (DDMMYYYY.digit c) as [x|] eqn:E; cbn; [|done].
  apply digit_Some in E as [? ->].
  destruct (Z.leb_spec 1 (Z.of_N c - 48)); [|done]. intros [= <-]. lia.
Qed.

Ltac group_compute :=
  split; [apply fullmatch_matches|]; reflexivity.

Lemma day_matches `{UnicodeData} t v :
  DMY.day t = Some v → 1 ≤ v ≤ 31 →
  re.matches datetime.re_d t ∧ datetime.int t = OK v.
Proof.
  destruct t as [|a [|b [|? ?]]]; cbn [DMY.day]; try done.
  - intros [Ha ->]%one_to_nine_Some _. range_split; group_compute.
  - case_bool_decide as Hblank.
    { subst a. intros [Hb ->]%one_to_nine_Some _. range_split; group_compute. }
    destruct (DDMMYYYY.digit a) as [x|] eqn:Ex; cbn [mbind option_bind]; [|done].
    apply digit_Some in Ex as [Ha ->].
    destruct ((1 <=? Z.of_N a - 48) && (Z.of_N a - 48 <=? 2)) eqn:Eteen.
    + apply andb_true_iff in Eteen as [?%Z.leb_le ?%Z.leb_le].
      unfold DMY.any_digit.
      destruct (decimal_value b) as [n|] eqn:Eb; cbn; [|done].
      intros [= <-] _. split; [|by apply day_teens; [lia|]].
      unfold datetime.re_d, datetime.alts. cbn [foldr].
      apply re.m_alt_r, re.m_alt_l. change [a; b] with ([a] ++ [b]).
      constructor; [|by constructor; apply decimal_value_is_decimal; eauto].
      constructor. unfold chr. cbn. lia.
    + destruct (DDMMYYYY.digit b) as [y|] eqn:Ey; cbn; [|done].
      apply digit_Some in Ey as [Hb ->]. intros [= <-] Hv.
      digit_split a Ha; try done; digit_split b Hb; try lia; group_compute.
Qed.

Lemma month_matches `{UnicodeData} t v :
  DMY.month t = Some v → 1 ≤ v ≤ 12 →
  re.matches datetime.re_m t ∧ datetime.int t = OK v.
Proof.
  destruct t as [|a [|b [|? ?]]]; cbn [DMY.month]; try done.
  - intros [Ha ->]%one_to_nine_Some _. range_split; group_compute.
  - destruct (DDMMYYYY.digit a) as [x|] eqn:Ex; cbn [mbind option_bind]; [|done].
    apply digit_Some in Ex as [Ha ->].
    destruct (DDMMYYYY.digit b) as [y|] eqn:Ey; cbn; [|done].
    apply digit_Some in Ey as [Hb ->]. intros [= <-] Hv.
    digit_split a Ha; digit_split b Hb; try lia; group_compute.
Qed.

Lemma year_matches `{UnicodeData} t v :
  DMY.year t = Some v →
  re.matches datetime.re_Y t ∧ datetime.int t = OK v.
Proof.
  destruct t as [|a [|b [|c [|d [|? ?]]]]]; cbn [DMY.year]; try done.
  unfold DMY.any_digit.
  destruct (decimal_value a) as [na|] eqn:Ea; cbn; [|done].
  destruct (decimal_value b) as [nb|] eqn:Eb; cbn; [|done].
  destruct (decimal_value c) as [nc|] eqn:Ec; cbn; [|done].
  destruct (decimal_value d) as [nd|] eqn:Ed; cbn; [|done].
  intros [= <-]. split; [|by apply year_digits].
  unfold datetime.re_Y.
  change [a; b; c; d] with ([a] ++ [b] ++ [c] ++ [d]).
  repeat constructor; apply decimal_value_is_decimal; eauto.
Qed.

Lemma cut_unique u v u' v' :
  chr "." ∉ u → chr "." ∉ u' →
  u ++ chr "." :: v = u' ++ chr "." :: v' → u = u' ∧ v = v'.
Proof.
  intros Hu Hu' Heq. apply (f_equal DMY.cut) in Heq.
  rewrite !cut_app in Heq by done. by injection Heq.
Qed.

(** The dots are in no group, so a text is matched in one way at most: the
    first match is the only one, and it leaves nothing over. *)
Lemma match_dmY_complete `{UnicodeData} d m y :
  re.matches datetime.re_d d → re.matches datetime.re_m m →
  re.matches datetime.re_Y y →
  datetime.match_dmY (d ++ [chr "."] ++ m ++ [chr "."] ++ y)
  = Some (d, m, y, []).
Proof.
  intros Hd Hm Hy.
  assert ((d, m, y, [])
          ∈ ('(d, s1) ← re.run datetime.re_d (d ++ [chr "."] ++ m ++ [chr "."] ++ y);
             '(_, s2) ← re.run datetime.re_dot s1;
             '(m, s3) ← re.run datetime.re_m s2;
             '(_, s4) ← re.run datetime.re_dot s3;
             '(y, s5) ← re.run datetime.re_Y s4;
             [(d, m, y, s5)])) as Hin.
  { apply list_elem_of_bind. eexists (d, _). split; [|by apply run_complete].
    apply list_elem_of_bind. eexists ([chr "."], _).
    split; [|apply (run_complete _ _ (re.m_lit _))].
    apply list_elem_of_bind. eexists (m, _). split; [|by apply run_complete].
    apply list_elem_of_bind. eexists ([chr "."], _).
    split; [|apply (run_complete _ _ (re.m_lit _))].
    apply list_elem_of_bind. exists (y, []).
    split; [by apply list_elem_of_singleton|].
    rewrite <- (app_nil_r y) at 2. by apply run_complete. }
  destruct (datetime.match_dmY (d ++ [chr "."] ++ m ++ [chr "."] ++ y))
    as [[[[d' m'] y'] rest]|] eqn:E.
  - apply match_dmY_sound in E as (Heq & Hd' & Hm' & Hy').
    destruct (day_group d Hd) as [Hnd _], (day_group d' Hd') as [Hnd' _].
    destruct (month_group m Hm) as [Hnm _], (month_group m' Hm') as [Hnm' _].
    destruct (year_group y Hy) as [Hly _], (year_group y' Hy') as [Hly' _].
    cbn [app] in Heq.
    apply cut_unique in Heq as [-> Heq]; [|done..].
    apply cut_unique in Heq as [-> Heq]; [|done..].
    assert (rest = []) as ->.
    { apply (f_equal length) in Heq. rewrite length_app in Heq.
      destruct rest; [done | cbn in Heq; lia]. }
    rewrite app_nil_r in Heq. by subst.
  - unfold datetime.match_dmY in E. apply head_None in E.
    rewrite E in Hin. by apply elem_of_nil in Hin.
Qed.

Lemma real_date_bounds d m y :
  DDMMYYYY.real_date d m y = true →
  1 ≤ y ∧ 1 ≤ m ≤ 12 ∧ 1 ≤ d ≤ datetime.days_in_month y m ∧ d ≤ 31.
Proof.
  unfold DDMMYYYY.real_date.
  rewrite !andb_true_iff, !Z.leb_le. intros [[[[Hy Hm1] Hm2] Hd1] Hd2].
  pose proof (days_in_month_bounds y m (conj Hm1 Hm2)). lia.
Qed.

Lemma parse_inv `{UnicodeData} s d m y :
  DMY.parse s = Some (d, m, y) ↔
  ∃ dt mt yt,
    s = dt ++ [chr "."] ++ mt ++ [chr "."] ++ yt
    ∧ (chr "." ∉ dt) ∧ (chr "." ∉ mt)
    ∧ DMY.day dt = Some d ∧ DMY.month mt = Some m ∧ DMY.year yt = Some y
    ∧ DDMMYYYY.real_date d m y = true ∧ y ≤ 9999.
Proof.
  unfold DMY.parse, DMY.fields. split.
  - destruct (DMY.cut s) as [[dt s']|] eqn:E1; cbn; [|done].
    destruct (DMY.cut s') as [[mt yt]|] eqn:E2; cbn; [|done].
    destruct (DMY.day dt) as [d'|] eqn:Ed; cbn; [|done].
    destruct (DMY.month mt) as [m'|] eqn:Em; cbn; [|done].
    destruct (DMY.year yt) as [y'|] eqn:Ey; cbn; [|done].
    destruct (DDMMYYYY.real_date d' m' y' && (y' <=? 9999)) eqn:Er; [|done].
    intros [= <- <- <-].
    apply andb_true_iff in Er as [? ?%Z.leb_le].
    apply cut_inv in E1 as [-> ?], E2 as [-> ?].
    exists dt, mt, yt. done.
  - intros (dt & mt & yt & -> & Hdt & Hmt & Hd & Hm & Hy & Hr & Hy2).
    cbn [app]. rewrite cut_app by done. cbn. rewrite cut_app by done. cbn.
    rewrite Hd, Hm, Hy. cbn. rewrite Hr. cbn.
    by rewrite (proj2 (Z.leb_le y 9999)).
Qed.

(** The parser accepts exactly what the lenient reading reads as a
    date. *)
Lemma strptime_parse `{UnicodeData} s dt :
  datetime.strptime_dmY s = OK dt ↔
  ∃ d m y, DMY.parse s = Some (d, m, y) ∧ dt = datetime.mk y m d 0 0 0 0.
Proof.
  split.
  - intros ((d & m & y & -> & Hd & Hm & Hy & Hid & Him & Hiy)
            & Hdt & Hreal & Hy2)%strptime_inv.
    exists (datetime.day dt), (datetime.month dt), (datetime.year dt).
    split; [|done]. apply parse_inv. exists d, m, y.
    destruct (day_group d Hd) as (? & vd & Hvd & ?).
    destruct (month_group m Hm) as (? & vm & Hvm & ?).
    destruct (year_group y Hy) as (? & vy & Hvy & ?).
    rewrite Hid in Hvd. rewrite Him in Hvm. rewrite Hiy in Hvy.
    injection Hvd as <-. injection Hvm as <-. injection Hvy as <-.
    done.
  - intros (d & m & y
            & (dt' & mt & yt & -> & _ & _ & Hd & Hm & Hy & Hr & Hy2)%parse_inv
            & ->).
    pose proof (real_date_bounds _ _ _ Hr) as (? & ? & ? & ?).
    apply day_matches in Hd as [Hmd Hid]; [|lia].
    apply month_matches in Hm as [Hmm Him]; [|lia].
    apply year_matches in Hy as [Hmy Hiy].
    unfold datetime.strptime_dmY. rewrite match_dmY_complete by done.
    rewrite Hid, Him, Hiy. cbn [mbind result_bind].
    by apply new_midnight.
Qed.

(** C4, as amended.  Every text in the fixed pattern DD.MM.YYYY that
    denotes a real calendar date is parsed, to that date, and rendering the
    stored date gives the text back when the year is 1000 or later.
    Parsing accepts exactly the texts that the lenient reading reads as a
    real calendar date of the years 1 to 9999: day, dot, month, dot, year,
    the day and the month with one or two digits, the year with four; it
    stores the date written, and raises [ValueError] for every other text.
    A stored date of the year 1000 or later is rendered in the fixed
    pattern, and the rendering parses to the same value. *)
Theorem birthday_parse_render `{UnicodeData} :
  (∀ s d m y,
     DDMMYYYY.fields s = Some (d, m, y) → DDMMYYYY.real_date d m y = true →
     Birthday.init s = OK (Birthday.mk (datetime.mk y m d 0 0 0 0))
     ∧ (1000 ≤ y → datetime.strftime_dmY (datetime.mk y m d 0 0 0 0) = s))
  ∧ (∀ s, Birthday.init s
          = match DMY.parse s with
            | Some (d, m, y) => OK (Birthday.mk (datetime.mk y m d 0 0 0 0))
            | None => Raise ValueError
            end)
  ∧ (∀ s b, Birthday.init s = OK b →
       1000 ≤ datetime.year (Birthday.value b) →
       DDMMYYYY.valid (datetime.strftime_dmY (Birthday.value b)) = true
       ∧ Birthday.init (datetime.strftime_dmY (Birthday.value b)) = OK b).
Proof.
  split; [|split].
  - intros s d m y Hf Hv.
    destruct (strptime_fixed s d m y Hf Hv) as [Hp Hr].
    split; [by apply birthday_init_OK|].
    intros Hy. rewrite Hr. by apply (short_year_same s d m y).
  - intros s. destruct (DMY.parse s) as [[[d m] y]|] eqn:Hp.
    + apply birthday_init_OK, strptime_parse. by exists d, m, y.
    + unfold Birthday.init.
      destruct (datetime.strptime_dmY s) as [dt|e] eqn:E.
      * apply strptime_parse in E as (d & m & y & ? & _). congruence.
      * by rewrite (strptime_raises _ _ E).
  - intros s [dt] Hb Hy1. apply birthday_init_OK in Hb. cbn in Hb, Hy1.
    apply strptime_inv in Hb as (_ & Hdt & Hreal & Hy).
    destruct dt as [yy mm dd ? ? ? ?]. cbn in Hdt, Hreal, Hy, Hy1.
    injection Hdt as -> -> -> ->.
    change (Birthday.value (Birthday.mk ?x)) with x.
    pose proof (strftime_fields _ _ _ Hreal (conj Hy1 Hy)) as Hf.
    split.
    + unfold DDMMYYYY.valid. by rewrite Hf.
    + destruct (strptime_fixed _ _ _ _ Hf Hreal) as [Hp _].
      by apply birthday_init_OK.
Qed.

(** C4 as stated fails on both counts.  ["01.01.0999"] is a real date in
    the fixed pattern and is parsed, but the stored date is rendered as
    ["01.01.999"], which is not the text, and which is not parsed any more.
    ["5.6.2000"] is not in the fixed pattern, yet it is parsed. *)
Lemma birthday_round_trip_fails :
  (DDMMYYYY.valid (txt "01.01.0999") = true
   ∧ Birthday.init (txt "01.01.0999")
     = OK (Birthday.mk (datetime.mk 999 1 1 0 0 0 0))
   ∧ datetime.strftime_dmY (datetime.mk 999 1 1 0 0 0 0) = txt "01.01.999"
   ∧ txt "01.01.999" ≠ txt "01.01.0999"
   ∧ Birthday.init (txt "01.01.999") = Raise ValueError)
  ∧ (DDMMYYYY.valid (txt "5.6.2000") = false
     ∧ Birthday.init (txt "5.6.2000")
       = OK (Birthday.mk (datetime.mk 2000 6 5 0 0 0 0))).
Proof.
  repeat split. intros Heq. apply (f_equal length) in Heq. discriminate Heq.
Qed.

(** The rendering of a year from 1000 on has its four digits, that of an
    earlier year fewer. *)
Example strftime_years :
  datetime.strftime_dmY (datetime.mk 2000 6 5 0 0 0 0) = txt "05.06.2000"
  ∧ datetime.strftime_dmY (datetime.mk 1000 12 31 0 0 0 0) = txt "31.12.1000"
  ∧ datetime.strftime_dmY (datetime.mk 999 12 31 0 0 0 0) = txt "31.12.999"
  ∧ datetime.strftime_dmY (datetime.mk 45 3 9 0 0 0 0) = txt "09.03.45"
  ∧ datetime.strftime_dmY (datetime.mk 1 1 1 0 0 0 0) = txt "01.01.1".
Proof. repeat split. Qed.

(** The lenient reading on some texts: a day or a month of one digit is
    read, a date that does not exist is not. *)
Example lenient_reading `{UnicodeData} :
  DMY.parse (txt "05.06.2000") = Some (5, 6, 2000)
  ∧ DMY.parse (txt "5.6.2000") = Some (5, 6, 2000)
  ∧ DMY.parse (txt " 5.06.2000") = Some (5, 6, 2000)
  ∧ DMY.parse (txt "29.02.2000") = Some (29, 2, 2000)
  ∧ DMY.parse (txt "01.01.0999") = Some (1, 1, 999)
  ∧ DMY.parse (txt "31.04.2000") = None
  ∧ DMY.parse (txt "29.02.2001") = None
  ∧ DMY.parse (txt "32.01.2000") = None
  ∧ DMY.parse (txt "01.13.2000") = None
  ∧ DMY.parse (txt "00.01.2000") = None
  ∧ DMY.parse (txt "01.01.0000") = None
  ∧ DMY.parse (txt "01.01.999") = None
  ∧ DMY.parse (txt "01.01.20000") = None
  ∧ DMY.parse (txt "005.06.2000") = None
  ∧ DMY.parse (txt "05. 6.2000") = None
  ∧ DMY.parse (txt "2000-01-01") = None
  ∧ DMY.parse (txt "05.06.2000 ") = None
  ∧ DMY.parse [] = None.
Proof. repeat split. Qed.

Example birthday_blank_day `{UnicodeData} :
  Birthday.init (txt " 5.06.2000")
  = OK (Birthday.mk (datetime.mk 2000 6 5 0 0 0 0)).
Proof. reflexivity. Qed.

Example birthday_not_a_date `{UnicodeData} :
  Birthday.init (txt "31.04.2000") = Raise ValueError
  ∧ Birthday.init (txt "29.02.2001") = Raise ValueError
  ∧ Birthday.init (txt "01.13.2000") = Raise ValueError
  ∧ Birthday.init (txt "01.01.0000") = Raise ValueError
  ∧ Birthday.init (txt "01.01.20000") = Raise ValueError
  ∧ Birthday.init (txt "2000-01-01") = Raise ValueError.
Proof. repeat split. Qed.

(** The year group is [\d\d\d\d]: a year written in ARABIC-INDIC digits
    (here U+0662 U+0660 U+0660 U+0660) is parsed, and rendered in ASCII. *)
Example birthday_arabic_indic_year :
  Birthday.init (txt "01.01." ++ [1634; 1632; 1632; 1632]%N)
  = OK (Birthday.mk (datetime.mk 2000 1 1 0 0 0 0)).
Proof. reflexivity. Qed.

(** * Records *)

Lemma edit_loop_name_birthday old new i todo r :
  Record.name (Record.edit_loop old new i todo r).1 = Record.name r
  ∧ Record.birthday (Record.edit_loop old new i todo r).1 = Record.birthday r
  ∧ (Record.edit_loop old new i todo r).2 = OK tt.
Proof.
  revert i. induction todo as [|p todo IH]; intros i; cbn; [done|].
  case_bool_decide; [done | apply IH].
Qed.

(** The loop started at position [length done_] of the list
    [done_ ++ todo], none of the phones in [done_] matching. *)
Lemma edit_loop_no_match old new i todo r :
  Forall (λ p, Phone.value p ≠ old) todo →
  Record.edit_loop old new i todo r = (r, OK tt).
Proof.
  revert i. induction todo as [|p todo IH]; intros i Hall; cbn; [done|].
  inversion_clear Hall. rewrite bool_decide_eq_false_2 by done. by apply IH.
Qed.

Lemma edit_loop_first_match old new before p after done_ r :
  Record.phones r = done_ ++ before ++ p :: after →
  Forall (λ q, Phone.value q ≠ old) before →
  Phone.value p = old →
  Record.phones (Record.edit_loop old new (length done_) (before ++ p :: after) r).1
  = done_ ++ before ++ Phone.mk new :: after.
Proof.
  revert done_. induction before as [|q before IH]; intros done_ Hr Hall Hp; cbn.
  - rewrite bool_decide_eq_true_2 by done. cbn. rewrite Hr.
    rewrite insert_app_r_alt by lia. by rewrite Nat.sub_diag.
  - inversion_clear Hall. rewrite bool_decide_eq_false_2 by done.
    specialize (IH (done_ ++ [q])).
    rewrite length_app, Nat.add_1_r, <- !app_assoc in IH. cbn in IH.
    by apply IH.
Qed.

(** C5.  [edit_phone(old, new)] raises [ValueError] and leaves the record
    as it was when [new] is not a valid phone.  When [new] is valid the call
    returns; name and birthday are kept; if no phone has the value [old] the
    record is unchanged; otherwise the first phone with that value, and only
    it, now holds [new]. *)
Theorem edit_phone_first_match `{UnicodeData} (r : Record.t) (old new : text) :
  (Phone.validate new = false →
     Record.edit_phone old new r = (r, Raise ValueError))
  ∧ (Phone.validate new = true →
     ∃ r', Record.edit_phone old new r = (r', OK tt)
       ∧ Record.name r' = Record.name r
       ∧ Record.birthday r' = Record.birthday r
       ∧ (Forall (λ p, Phone.value p ≠ old) (Record.phones r) → r' = r)
       ∧ (∀ before p after,
            Record.phones r = before ++ p :: after →
            Forall (λ q, Phone.value q ≠ old) before →
            Phone.value p = old →
            Record.phones r' = before ++ Phone.mk new :: after)).
Proof.
  unfold Record.edit_phone. split; intros Hv; rewrite Hv; cbn; [done|].
  destruct (edit_loop_name_birthday old new 0 (Record.phones r) r) as (Hn & Hb & Hok).
  destruct (Record.edit_loop old new 0 (Record.phones r) r) as [r' res] eqn:E.
  cbn in Hn, Hb, Hok. subst res. exists r'. repeat split; try done.
  - intros Hall. rewrite edit_loop_no_match in E by done. congruence.
  - intros before p after Hr Hall Hp.
    pose proof (edit_loop_first_match old new before p after [] r Hr Hall Hp) as Hl.
    cbn in Hl. rewrite <- Hr, E in Hl. done.
Qed.

Example edit_phone_match `{UnicodeData} :
  let r := Record.mk (Name.mk (txt "John"))
             [Phone.mk (txt "1111111111"); Phone.mk (txt "0987654321");
              Phone.mk (txt "1111111111")] None in
  Record.phones (Record.edit_phone (txt "1111111111") (txt "2222222222") r).1
  = [Phone.mk (txt "2222222222"); Phone.mk (txt "0987654321");
     Phone.mk (txt "1111111111")].
Proof. reflexivity. Qed.

Example str_with_birthday :
  Record.str (Record.set_birthday john
                (Some (Birthday.mk (datetime.mk 2000 6 5 0 0 0 0))))
  = txt "Contact name: John, phones: 1111111111; 0987654321, Birthday: 05.06.2000".
Proof. reflexivity. Qed.

Example edit_phone_no_match `{UnicodeData} :
  let r := Record.mk (Name.mk (txt "John")) [Phone.mk (txt "1111111111")] None in
  Record.edit_phone (txt "9999999999") (txt "2222222222") r = (r, OK tt).
Proof. reflexivity. Qed.


Lemma edit_loop_phones old new i todo r :
  Record.phones (Record.edit_loop old new i todo r).1 = Record.phones r
  ∨ ∃ j, Record.phones (Record.edit_loop old new i todo r).1
         = <[j := Phone.mk new]> (Record.phones r).
Proof.
  revert i. induction todo as [|p todo IH]; intros i; cbn; [by left|].
  case_bool_decide; [right; by exists i | apply IH].
Qed.

Lemma phone_init_inv `{UnicodeData} t p :
  Phone.init t = OK p → p = Phone.mk t ∧ Phone.validate t = true.
Proof.
  unfold Phone.init. destruct (Phone.validate t); [|done].
  by intros [= <-].
Qed.

Lemma add_phone_eq `{UnicodeData} t r :
  Record.add_phone t r
  = if Phone.validate t
    then (Record.set_phones r (Record.phones r ++ [Phone.mk t]), OK tt)
    else (r, Raise ValueError).
Proof.
  unfold Record.add_phone, Phone.init. by destruct (Phone.validate t).
Qed.

Lemma edit_phone_eq `{UnicodeData} old new r :
  Record.edit_phone old new r
  = if Phone.validate new
    then Record.edit_loop old new 0 (Record.phones r) r
    else (r, Raise ValueError).
Proof.
  unfold Record.edit_phone. by destruct (Phone.validate new).
Qed.

Lemma init_phones_valid `{UnicodeData} n r :
  Record.init n = OK r → Record.phones_valid r.
Proof. intros [= <-]. constructor. Qed.

Lemma perform_phones_valid `{UnicodeData} c r :
  Record.phones_valid r → Record.phones_valid (Record.perform c r).1.
Proof.
  unfold Record.phones_valid. intros Hr.
  destruct c as [t|t|old new|t]; cbn [Record.perform].
  - rewrite add_phone_eq. destruct (Phone.validate t) eqn:Hv; [|done].
    apply Forall_app. split; [done|]. by constructor.
  - cbn. apply list.Forall_forall. intros p [_ Hp]%list_elem_of_filter.
    exact (proj1 (list.Forall_forall _ _) Hr p Hp).
  - rewrite edit_phone_eq. destruct (Phone.validate new) eqn:Hv; [|done].
    destruct (edit_loop_phones old new 0 (Record.phones r) r) as [->|[j ->]];
      [done|].
    apply Forall_insert; done.
  - unfold Record.add_birthday. cbn.
    destruct (Birthday.init t); cbn; done.
Qed.

Lemma reachable_phones_valid `{UnicodeData} r :
  Record.reachable r → Record.phones_valid r.
Proof.
  induction 1 as [n r Hinit|c r _ IH].
  - by eapply init_phones_valid.
  - by apply perform_phones_valid.
Qed.

(** C6.  In a record built by the constructor and driven through any
    sequence of [add_phone], [remove_phone], [edit_phone] and [add_birthday]
    calls, returning or raising, every stored phone is a text of exactly ten
    decimal digits, and it stays so after one more call. *)
Theorem phones_always_ten_digits `{UnicodeData} (r : Record.t) :
  Record.reachable r →
  Forall (λ p, length (Phone.value p) = 10%nat
               ∧ Forall (λ c, is_decimal c = true) (Phone.value p))
         (Record.phones r)
  ∧ ∀ c, Record.phones_valid (Record.perform c r).1.
Proof.
  intros Hr. split.
  - apply reachable_phones_valid in Hr.
    eapply list.Forall_impl; [exact Hr|]. intros p Hp. by apply validate_iff.
  - intros c. by apply perform_phones_valid, reachable_phones_valid.
Qed.

Lemma john_reachable : Record.reachable john.
Proof.
  pose proof (Record.reach_init (txt "John") _ eq_refl) as H0.
  pose proof (Record.reach_call (Record.AddPhone (txt "1234567890")) _ H0) as H1.
  pose proof (Record.reach_call (Record.AddPhone (txt "0987654321")) _ H1) as H2.
  pose proof (Record.reach_call (Record.AddPhone (txt "12345")) _ H2) as H3.
  exact (Record.reach_call
           (Record.EditPhone (txt "1234567890") (txt "1111111111")) _ H3).
Defined.

(** A record reached by five calls, one of which raises. *)
Lemma phones_always_ten_digits_witness :
  Record.reachable john
  ∧ Forall (λ p, length (Phone.value p) = 10%nat
                 ∧ Forall (λ c, is_decimal c = true) (Phone.value p))
           (Record.phones john).
Proof.
  split; [exact john_reachable|].
  exact (proj1 (phones_always_ten_digits john john_reachable)).
Defined.

(** C7.  When [add_phone] or [edit_phone] raises, the record is left
    exactly as it was before the call; the exception is [ValueError], raised
    because the new value is not a valid phone. *)
Theorem failed_call_changes_nothing `{UnicodeData} (r r' : Record.t) (e : exn) :
  (∀ t, Record.add_phone t r = (r', Raise e) →
        r' = r ∧ e = ValueError ∧ Phone.validate t = false)
  ∧ (∀ old new, Record.edit_phone old new r = (r', Raise e) →
        r' = r ∧ e = ValueError ∧ Phone.validate new = false).
Proof.
  split.
  - intros t. rewrite add_phone_eq.
    destruct (Phone.validate t); [congruence|]. by intros [= <- <-].
  - intros old new. rewrite edit_phone_eq.
    destruct (Phone.validate new).
    + pose proof (edit_loop_name_birthday old new 0 (Record.phones r) r) as (_ & _ & Hok).
      destruct (Record.edit_loop _ _ _ _ _) as [r'' res]. cbn in Hok. congruence.
    + by intros [= <- <-].
Qed.

(** * The dictionary *)

Section dict_facts.
Context {V : Type}.
Implicit Types (d : list (text * V)) (k : text) (v : V).

Lemma getitem_Some_elem_of d k v : dict.getitem d k = Some v → (k, v) ∈ d.
Proof.
  induction d as [|[k' v'] d IH]; cbn; [done|].
  case_bool_decide as Hk.
  - intros [= ->]. subst. apply elem_of_cons. by left.
  - intros ?. apply elem_of_cons. right. by apply IH.
Qed.

Lemma getitem_None d k : dict.getitem d k = None ↔ k ∉ dict.keys d.
Proof.
  unfold dict.keys. induction d as [|[k' v'] d IH]; cbn.
  - split; [|done]. intros _ ?%elem_of_nil. done.
  - rewrite not_elem_of_cons. case_bool_decide as Hk.
    + split; [done|]. intros [? _]. congruence.
    + rewrite IH. split; [|tauto]. intros ?. split; [congruence | done].
Qed.

Lemma getitem_setitem d k v : dict.getitem (dict.setitem d k v) k = Some v.
Proof.
  induction d as [|[k' v'] d IH]; cbn.
  - by rewrite bool_decide_eq_true_2.
  - case_bool_decide as Hk; cbn.
    + by rewrite bool_decide_eq_true_2.
    + by rewrite bool_decide_eq_false_2.
Qed.

Lemma getitem_setitem_ne d k k' v :
  k' ≠ k → dict.getitem (dict.setitem d k v) k' = dict.getitem d k'.
Proof.
  intros Hne. induction d as [|[k0 v0] d IH]; cbn.
  - by rewrite bool_decide_eq_false_2.
  - case_bool_decide as Hk; cbn.
    + subst. by rewrite !bool_decide_eq_false_2.
    + case_bool_decide; [done | apply IH].
Qed.

Lemma elem_of_setitem d k v k' v' :
  (k', v') ∈ dict.setitem d k v → (k', v') = (k, v) ∨ (k', v') ∈ d.
Proof.
  induction d as [|[k0 v0] d IH]; cbn.
  - intros ->%list_elem_of_singleton. by left.
  - case_bool_decide as Hk; rewrite !elem_of_cons.
    + intros [[= -> ->]|?]; [left; congruence | right; by right].
    + intros [?|[?|?]%IH]; auto.
Qed.

Lemma keys_setitem d k v :
  dict.keys (dict.setitem d k v)
  = if dict.contains d k then dict.keys d else dict.keys d ++ [k].
Proof.
  unfold dict.contains, dict.keys. induction d as [|[k0 v0] d IH]; cbn; [done|].
  case_bool_decide as Hk; cbn; [done|].
  rewrite IH. by destruct (dict.getitem d k).
Qed.

Lemma NoDup_setitem d k v :
  NoDup (dict.keys d) → NoDup (dict.keys (dict.setitem d k v)).
Proof.
  intros Hd. rewrite keys_setitem. unfold dict.contains.
  destruct (dict.getitem d k) eqn:E; [done|].
  apply getitem_None in E. apply list.NoDup_app. split; [done|].
  split; [|apply list.NoDup_singleton].
  intros x Hx ->%list_elem_of_singleton. done.
Qed.

Lemma elem_of_remove d k k' v' : (k', v') ∈ dict.remove d k → (k', v') ∈ d.
Proof.
  induction d as [|[k0 v0] d IH]; cbn; [done|].
  case_bool_decide; rewrite ?elem_of_cons; [by right|].
  intros [?|?]; [by left | right; by apply IH].
Qed.

Lemma keys_remove_sub d k x :
  x ∈ dict.keys (dict.remove d k) → x ∈ dict.keys d.
Proof.
  unfold dict.keys. intros ([k' v'] & -> & Hin)%list_elem_of_fmap.
  apply list_elem_of_fmap. exists (k', v'). split; [done|].
  by eapply elem_of_remove.
Qed.

Lemma NoDup_remove d k : NoDup (dict.keys d) → NoDup (dict.keys (dict.remove d k)).
Proof.
  unfold dict.keys. induction d as [|[k0 v0] d IH]; cbn; [done|].
  intros [Hk0 Hd]%list.NoDup_cons. case_bool_decide; [done|]. cbn.
  apply list.NoDup_cons. split; [|by apply IH].
  intros Hin. apply Hk0. by eapply keys_remove_sub.
Qed.

Lemma getitem_remove d k :
  NoDup (dict.keys d) → dict.getitem (dict.remove d k) k = None.
Proof.
  unfold dict.keys. induction d as [|[k0 v0] d IH]; cbn; [done|].
  intros [Hk0 Hd]%list.NoDup_cons. case_bool_decide as Hk.
  - subst. by apply getitem_None.
  - cbn. rewrite bool_decide_eq_false_2 by done. by apply IH.
Qed.

Lemma getitem_remove_ne d k k' :
  k' ≠ k → dict.getitem (dict.remove d k) k' = dict.getitem d k'.
Proof.
  intros Hne. induction d as [|[k0 v0] d IH]; cbn; [done|].
  case_bool_decide as Hk; cbn.
  - subst. by rewrite bool_decide_eq_false_2.
  - case_bool_decide; [done | apply IH].
Qed.

Lemma remove_absent d k : dict.getitem d k = None → dict.remove d k = d.
Proof.
  induction d as [|[k0 v0] d IH]; cbn; [done|].
  case_bool_decide; [done|]. intros ?. f_equal. by apply IH.
Qed.

End dict_facts.

(** * The address book *)

Lemma perform_name `{UnicodeData} c r :
  Record.name (Record.perform c r).1 = Record.name r.
Proof.
  destruct c as [t|t|old new|t]; cbn [Record.perform].
  - rewrite add_phone_eq. by destruct (Phone.validate t).
  - done.
  - rewrite edit_phone_eq. destruct (Phone.validate new); [|done].
    apply edit_loop_name_birthday.
  - unfold Record.add_birthday. cbn. by destruct (Birthday.init t).
Qed.

Lemma add_record_eq record book :
  AddressBook.add_record record book
  = (dict.setitem book (Name.value (Record.name record)) record, OK tt).
Proof. reflexivity. Qed.

Lemma delete_eq name book :
  AddressBook.delete name book
  = (if dict.contains book name then dict.remove book name else book, OK tt).
Proof.
  unfold AddressBook.delete, dict.delitem, dict.contains, mbind, method_bind, get.
  destruct (dict.getitem book name) eqn:E; by rewrite ?E.
Qed.

Lemma on_record_eq `{UnicodeData} n c book :
  AddressBook.act (AddressBook.OnRecord n c) book
  = match AddressBook.find book n with
    | Some r => (dict.setitem book n (Record.perform c r).1, OK tt)
    | None => (book, OK tt)
    end.
Proof.
  unfold AddressBook.act, mbind, method_bind, get.
  by destruct (AddressBook.find book n).
Qed.

Lemma well_keyed_setitem book r :
  AddressBook.well_keyed book →
  AddressBook.well_keyed (dict.setitem book (Name.value (Record.name r)) r).
Proof.
  intros [Hnd Hall]. split; [by apply NoDup_setitem|].
  apply list.Forall_forall. intros [k' r'] [[= -> ->]|Hin]%elem_of_setitem; [done|].
  exact (proj1 (list.Forall_forall _ _) Hall _ Hin).
Qed.

Lemma well_keyed_act `{UnicodeData} a book :
  AddressBook.well_keyed book → AddressBook.well_keyed (AddressBook.act a book).1.
Proof.
  intros Hwk. destruct a as [r|n|n c].
  - cbn [AddressBook.act]. rewrite add_record_eq. by apply well_keyed_setitem.
  - cbn [AddressBook.act]. rewrite delete_eq. cbn. destruct (dict.contains book n); [|done].
    destruct Hwk as [Hnd Hall]. split; [by apply NoDup_remove|].
    apply list.Forall_forall. intros [k' r'] Hin%elem_of_remove.
    exact (proj1 (list.Forall_forall _ _) Hall _ Hin).
  - rewrite on_record_eq. unfold AddressBook.find.
    destruct (dict.getitem book n) as [r|] eqn:E; cbn [fst]; [|done].
    apply getitem_Some_elem_of in E.
    pose proof (proj1 (list.Forall_forall _ _) (proj2 Hwk) _ E) as Hn. cbn in Hn.
    rewrite <- Hn, <- (perform_name c r). by apply well_keyed_setitem.
Qed.

Lemma reachable_well_keyed `{UnicodeData} book :
  AddressBook.reachable book → AddressBook.well_keyed book.
Proof.
  induction 1 as [|a book _ IH _].
  - split; [constructor | constructor].
  - by apply well_keyed_act.
Qed.

(** C8.  [add_record] returns, and afterwards [find] of the record's name
    gives that record, whatever was stored under the name before; other
    names are not affected.  In every book reached from the empty one by
    adding records, deleting names and calling methods on stored records,
    keys are unique and each key is the name of the record stored under
    it. *)
Theorem add_record_last_write_wins `{UnicodeData}
    (book : AddressBook.t) (record : Record.t) :
  let name := Name.value (Record.name record) in
  let book' := (AddressBook.add_record record book).1 in
  (AddressBook.add_record record book).2 = OK tt
  ∧ AddressBook.find book' name = Some record
  ∧ (∀ n, n ≠ name → AddressBook.find book' n = AddressBook.find book n)
  ∧ (AddressBook.reachable book →
       NoDup (dict.keys book)
       ∧ (∀ k r, (k, r) ∈ book → Name.value (Record.name r) = k)
       ∧ (∀ k r, AddressBook.find book k = Some r →
                 Name.value (Record.name r) = k)).
Proof.
  cbn zeta. rewrite add_record_eq. cbn [fst snd]. unfold AddressBook.find.
  split; [done|]. split; [apply getitem_setitem|].
  split; [intros n Hn; by apply getitem_setitem_ne|].
  intros [Hnd Hall]%reachable_well_keyed.
  assert (∀ k r, (k, r) ∈ book → Name.value (Record.name r) = k) as Hin.
  { intros k r Hkr. exact (proj1 (list.Forall_forall _ _) Hall _ Hkr). }
  split; [done|]. split; [done|].
  intros k r Hf%getitem_Some_elem_of. by apply Hin.
Qed.

(** C9.  [delete] never raises: a name that is present is removed (and no
    other name is affected), a name that is absent leaves the book as it
    was.  [find] returns [None] exactly for the names that are not keys, and
    [find_phone] returns [None] exactly when no phone has the value asked
    for, and otherwise a stored phone with that value. *)
Theorem delete_and_absence (book : AddressBook.t) (name : text) :
  NoDup (dict.keys book) →
  (AddressBook.delete name book).2 = OK tt
  ∧ AddressBook.find (AddressBook.delete name book).1 name = None
  ∧ (∀ n, n ≠ name →
       AddressBook.find (AddressBook.delete name book).1 n
       = AddressBook.find book n)
  ∧ (AddressBook.find book name = None →
       AddressBook.delete name book = (book, OK tt))
  ∧ (AddressBook.find book name = None ↔ name ∉ dict.keys book)
  ∧ (∀ (r : Record.t) phone,
       (Record.find_phone r phone = None
        ↔ Forall (λ p, Phone.value p ≠ phone) (Record.phones r))
       ∧ (∀ p, Record.find_phone r phone = Some p →
               p ∈ Record.phones r ∧ Phone.value p = phone)).
Proof.
  intros Hnd. rewrite delete_eq. cbn [fst snd]. unfold AddressBook.find, dict.contains.
  split; [done|]. split; [|split; [|split; [|split]]].
  - destruct (dict.getitem book name) eqn:E; [by apply getitem_remove | done].
  - intros n Hn. destruct (dict.getitem book name); [|done].
    by apply getitem_remove_ne.
  - by intros ->.
  - apply getitem_None.
  - intros r phone. unfold Record.find_phone.
    induction (Record.phones r) as [|q l [IH1 IH2]]; cbn.
    + split; [done|]. done.
    + case_bool_decide as Hq.
      * split.
        -- split; [done|]. intros Hall%list.Forall_cons_1. tauto.
        -- intros p [= <-]. split; [apply elem_of_cons; by left | done].
      * split.
        -- rewrite IH1. split; [intros ?; by constructor|].
           by intros [_ ?]%list.Forall_cons_1.
        -- intros p [? ?]%IH2. split; [apply elem_of_cons; by right | done].
Qed.

Lemma delete_and_absence_witness :
  NoDup (dict.keys [(txt "John", john)])
  ∧ AddressBook.delete (txt "John") [(txt "John", john)] = ([], OK tt)
  ∧ AddressBook.find
      (AddressBook.delete (txt "John") [(txt "John", john)]).1 (txt "John")
    = None.
Proof.
  assert (NoDup (dict.keys [(txt "John", john)])) as Hnd
    by apply list.NoDup_singleton.
  split; [exact Hnd|]. split; [reflexivity|].
  exact (proj1 (proj2 (delete_and_absence _ (txt "John") Hnd))).
Defined.

(** Without the membership test the deletion would raise. *)
Lemma delitem_absent {V} (d : list (text * V)) k :
  dict.getitem d k = None → dict.delitem k d = (d, Raise KeyError).
Proof.
  intros E. unfold dict.delitem, dict.contains, mbind, method_bind, get.
  by rewrite E.
Qed.

(** C10.  The constructor of [Record] accepts every text as a name, the
    empty text included, and a record with the empty name is stored under
    the empty key, where [find] returns it. *)
Theorem record_name_not_validated (name : text) (book : AddressBook.t) :
  Record.init name = OK (Record.mk (Name.mk name) [] None)
  ∧ let anonymous := Record.mk (Name.mk []) [] None in
    Record.init [] = OK anonymous
    ∧ AddressBook.add_record anonymous book
      = (dict.setitem book [] anonymous, OK tt)
    ∧ AddressBook.find (AddressBook.add_record anonymous book).1 []
      = Some anonymous.
Proof.
  split; [done|]. cbn zeta. split; [done|]. split; [done|].
  rewrite add_record_eq. apply getitem_setitem.
Qed.

(** * Upcoming birthdays *)

(** The records of the examples are what the constructors build. *)
Lemma with_birthday_built `{UnicodeData} :
  ∀ name s y m d r,
    Record.init (txt name) = OK r →
    Birthday.init s = OK (Birthday.mk (datetime.mk y m d 0 0 0 0)) →
    Record.add_birthday s r = (with_birthday name y m d, OK tt).
Proof.
  intros name s y m d r [= <-] Hb.
  unfold Record.add_birthday, mbind, method_bind, lift. by rewrite Hb.
Qed.

Example spec_example_alice_bob :
  let book := (AddressBook.add_record bob (AddressBook.add_record alice []).1).1 in
  AddressBook.get_upcoming_birthdays book (datetime.mk 2024 6 1 0 0 0 0)
  = OK [(txt "Alice", Birthday.mk (datetime.mk 2000 6 5 0 0 0 0))].
Proof. reflexivity. Qed.

Example insertion_order_not_date_order :
  let book := (AddressBook.add_record carol (AddressBook.add_record alice []).1).1 in
  AddressBook.get_upcoming_birthdays book (datetime.mk 2024 5 31 0 0 0 0)
  = OK [(txt "Alice", Birthday.mk (datetime.mk 2000 6 5 0 0 0 0));
        (txt "Carol", Birthday.mk (datetime.mk 2000 6 1 0 0 0 0))].
Proof. reflexivity. Qed.

(** C1 (the code departs from the claim).  Carol's birthday is 1 June.  With
    the clock at 10:00 on 2024-06-01 the query returns nothing: the
    birthday, as midnight of that day, counts as already past, and is moved
    to 2025.  Read on dates, its next occurrence is 2024-06-01, inside the
    window, and at midnight of the same day the query does list her. *)
Theorem birthday_today_dropped_after_midnight :
  let book := (AddressBook.add_record carol []).1 in
  let b := Birthday.mk (datetime.mk 2000 6 1 0 0 0 0) in
  Record.birthday carol = Some b
  ∧ AddressBook.get_upcoming_birthdays book (datetime.mk 2024 6 1 10 0 0 0)
    = OK []
  ∧ DateOnly.upcoming book (datetime.mk 2024 6 1 10 0 0 0)
    = [(txt "Carol", b)]
  ∧ AddressBook.get_upcoming_birthdays book (datetime.mk 2024 6 1 0 0 0 0)
    = OK [(txt "Carol", b)].
Proof. repeat split. Qed.

(** C2 (the code departs from the claim).  Ann's record is built by the
    validated constructors from ["29.02.2000"].  On 2023-06-01 the query
    raises [ValueError], since 2023 has no 29 February; on 2024-03-01 it
    raises as well, the date being moved to 2025. *)
Theorem leap_day_birthday_raises :
  let book := (AddressBook.add_record ann []).1 in
  (∃ r, Record.init (txt "Ann") = OK r
        ∧ Record.add_birthday (txt "29.02.2000") r = (ann, OK tt))
  ∧ AddressBook.get_upcoming_birthdays book (datetime.mk 2023 6 1 0 0 0 0)
    = Raise ValueError
  ∧ AddressBook.get_upcoming_birthdays book (datetime.mk 2024 3 1 0 0 0 0)
    = Raise ValueError.
Proof.
  split; [|by split].
  eexists. split; [reflexivity|]. by eapply with_birthday_built.
Qed.

(** ** Where the code and the date-only reading agree *)

Lemma lt_midnight a b :
  datetime.midnight a → datetime.midnight b →
  datetime.lt a b = DateOnly.lt (DateOnly.of_datetime a) (DateOnly.of_datetime b).
Proof.
  destruct a, b. intros (? & ? & ? & ?) (? & ? & ? & ?). cbn in *. subst.
  unfold datetime.lt, DateOnly.lt. cbn.
  repeat match goal with |- context [?x ?= ?y] => destruct (x ?= y) end; done.
Qed.

Lemma le_midnight a b :
  datetime.midnight a → datetime.midnight b →
  datetime.le a b = DateOnly.le (DateOnly.of_datetime a) (DateOnly.of_datetime b).
Proof.
  destruct a, b. intros (? & ? & ? & ?) (? & ? & ? & ?). cbn in *. subst.
  unfold datetime.le, DateOnly.le. cbn.
  repeat match goal with |- context [?x ?= ?y] => destruct (x ?= y) end; done.
Qed.

Lemma replace_year_inv dt y dt' :
  datetime.replace_year dt y = OK dt' →
  dt' = datetime.mk y (datetime.month dt) (datetime.day dt) (datetime.hour dt)
          (datetime.minute dt) (datetime.second dt) (datetime.microsecond dt).
Proof. unfold datetime.replace_year. by intros [-> _]%new_inv. Qed.

Lemma replace_year_midnight dt y dt' :
  datetime.midnight dt → datetime.replace_year dt y = OK dt' →
  datetime.midnight dt'
  ∧ DateOnly.of_datetime dt' = (y, datetime.month dt, datetime.day dt).
Proof. intros Hm ->%replace_year_inv. done. Qed.

Lemma add_days_midnight dt n dt' :
  datetime.midnight dt → datetime.add_days dt n = OK dt' →
  datetime.midnight dt'
  ∧ DateOnly.of_datetime dt' = DateOnly.plus_days (DateOnly.of_datetime dt) n.
Proof.
  intros Hm. unfold datetime.add_days, DateOnly.plus_days, datetime.toordinal.
  destruct (_ && _); [|done]. cbn.
  destruct (datetime.ord2ymd _) as [[y m] d]. by intros [= <-].
Qed.

Lemma upcoming_loop_midnight today next_week records acc l :
  datetime.midnight today → datetime.midnight next_week →
  DateOnly.of_datetime next_week
  = DateOnly.plus_days (DateOnly.of_datetime today) 7 →
  AddressBook.birthdays_at_midnight records →
  AddressBook.upcoming_loop today next_week records acc = OK l →
  l = acc ++ omap (DateOnly.entry (DateOnly.of_datetime today)) records.
Proof.
  intros Ht Hn Hnw. revert acc.
  induction records as [|r records IH]; intros acc Hall; cbn.
  - intros [= <-]. by rewrite app_nil_r.
  - apply list.Forall_cons_1 in Hall as [Hr Hall].
    unfold DateOnly.entry at 1.
    destruct (Record.birthday r) as [b|] eqn:Eb; cbn; [|by apply IH].
    specialize (Hr b eq_refl).
    destruct (datetime.replace_year (Birthday.value b) (datetime.year today))
      as [bd|] eqn:E1; cbn; [|done].
    destruct (replace_year_midnight _ _ _ Hr E1) as [Hbd Hbd_date].
    rewrite (lt_midnight _ _ Hbd Ht), Hbd_date.
    unfold DateOnly.in_window, DateOnly.next_occurrence.
    destruct today as [ty tm td th tmi ts tu] eqn:Etoday.
    cbn [DateOnly.of_datetime datetime.year datetime.month datetime.day] in *.
    destruct (DateOnly.lt _ _) eqn:Elt.
    + destruct (datetime.replace_year bd (ty + 1)) as [bd2|] eqn:E2; cbn; [|done].
      destruct (replace_year_midnight _ _ _ Hbd E2) as [Hbd2 Hbd2_date].
      rewrite (le_midnight _ _ Ht Hbd2), (le_midnight _ _ Hbd2 Hn), Hbd2_date, Hnw.
      apply replace_year_inv in E1. subst bd. cbn.
      intros Hl%IH; [|done]. subst l.
      destruct (_ && _); [by rewrite <- app_assoc | done].
    + cbn. rewrite (le_midnight _ _ Ht Hbd), (le_midnight _ _ Hbd Hn), Hbd_date, Hnw.
      intros Hl%IH; [|done]. subst l.
      destruct (_ && _); [by rewrite <- app_assoc | done].
Qed.

(** ** What reachable records and books hold *)

Lemma reachable_birthday_parsed `{UnicodeData} r b :
  Record.reachable r → Record.birthday r = Some b →
  ∃ s, Birthday.init s = OK b.
Proof.
  intros Hr. revert b. induction Hr as [n r [= <-]|c r _ IH]; intros b; [done|].
  destruct c as [t|t|old new|t]; cbn [Record.perform].
  - rewrite add_phone_eq. destruct (Phone.validate t); apply IH.
  - apply IH.
  - rewrite edit_phone_eq. destruct (Phone.validate new); [|apply IH].
    destruct (edit_loop_name_birthday old new 0 (Record.phones r) r) as (_ & -> & _).
    apply IH.
  - unfold Record.add_birthday, mbind, method_bind, lift.
    destruct (Birthday.init t) as [b'|] eqn:E; cbn; [|apply IH].
    intros [= <-]. eauto.
Qed.

Lemma parsed_birthday `{UnicodeData} s b :
  Birthday.init s = OK b →
  datetime.midnight (Birthday.value b)
  ∧ DDMMYYYY.real_date (datetime.day (Birthday.value b))
      (datetime.month (Birthday.value b)) (datetime.year (Birthday.value b)) = true.
Proof.
  intros (_ & Hdt & Hreal & _)%birthday_init_OK%strptime_inv.
  split; [|done]. rewrite Hdt. done.
Qed.

Lemma reachable_records `{UnicodeData} book :
  AddressBook.reachable book → Forall Record.reachable (dict.values book).
Proof.
  unfold dict.values.
  assert (∀ (d : AddressBook.t) k r, Record.reachable r →
            Forall Record.reachable d.*2 →
            Forall Record.reachable (dict.setitem d k r).*2) as Hset.
  { intros d k r Hr Hd. apply list.Forall_forall.
    intros r' ([k' r''] & -> & [[= -> ->]|Hin]%elem_of_setitem)%list_elem_of_fmap;
      [done|].
    apply (proj1 (list.Forall_forall _ _) Hd). apply list_elem_of_fmap.
    by exists (k', r''). }
  induction 1 as [|a book _ IH Ha]; [constructor|].
  destruct a as [r|n|n c].
  - cbn [AddressBook.act]. rewrite add_record_eq. cbn [fst]. apply Hset; [|done].
    by apply Ha.
  - cbn [AddressBook.act]. rewrite delete_eq. cbn [fst].
    destruct (dict.contains book n); [|done].
    apply list.Forall_forall.
    intros r' ([k' r''] & -> & Hin%elem_of_remove)%list_elem_of_fmap.
    apply (proj1 (list.Forall_forall _ _) IH). apply list_elem_of_fmap.
    by exists (k', r'').
  - rewrite on_record_eq. unfold AddressBook.find.
    destruct (dict.getitem book n) as [r|] eqn:E; cbn [fst]; [|done].
    apply Hset; [|done]. apply Record.reach_call.
    apply getitem_Some_elem_of in E.
    apply (proj1 (list.Forall_forall _ _) IH). apply list_elem_of_fmap.
    by exists (n, r).
Qed.

Lemma reachable_birthdays_at_midnight `{UnicodeData} book :
  AddressBook.reachable book →
  AddressBook.birthdays_at_midnight (dict.values book).
Proof.
  intros Hb%reachable_records. eapply list.Forall_impl; [exact Hb|].
  intros r Hr b Hrb. cbn in *.
  destruct (reachable_birthday_parsed r b Hr Hrb) as [s Hs].
  by apply parsed_birthday in Hs as [? _].
Qed.

Lemma carol_reachable : Record.reachable carol.
Proof.
  exact (Record.reach_call (Record.AddBirthday (txt "01.06.2000")) _
           (Record.reach_init (txt "Carol") _ eq_refl)).
Defined.

Lemma carol_book_reachable : AddressBook.reachable [(txt "Carol", carol)].
Proof.
  refine (AddressBook.reach_act (AddressBook.AddRecord carol) []
            AddressBook.reach_empty _).
  intros r [= <-]. exact carol_reachable.
Defined.

(** X1.  When the clock reads midnight the query, whenever it returns,
    returns what the date-only reading prescribes: the records with a
    birthday whose next occurrence lies in the window, in the order of the
    book. *)
Theorem upcoming_agrees_at_midnight `{UnicodeData} book today l :
  AddressBook.reachable book →
  datetime.midnight today →
  AddressBook.get_upcoming_birthdays book today = OK l →
  l = DateOnly.upcoming book today.
Proof.
  intros Hbook Ht. unfold AddressBook.get_upcoming_birthdays.
  destruct (datetime.add_days today 7) as [nw|] eqn:E; cbn; [|done].
  destruct (add_days_midnight _ _ _ Ht E) as [Hn Hnw].
  intros Hl. eapply upcoming_loop_midnight in Hl; eauto.
  by apply reachable_birthdays_at_midnight.
Qed.

Lemma upcoming_agrees_at_midnight_witness :
  AddressBook.reachable [(txt "Carol", carol)]
  ∧ datetime.midnight (datetime.mk 2024 6 1 0 0 0 0)
  ∧ AddressBook.get_upcoming_birthdays [(txt "Carol", carol)]
      (datetime.mk 2024 6 1 0 0 0 0)
    = OK [(txt "Carol", Birthday.mk (datetime.mk 2000 6 1 0 0 0 0))]
  ∧ [(txt "Carol", Birthday.mk (datetime.mk 2000 6 1 0 0 0 0))]
    = DateOnly.upcoming [(txt "Carol", carol)] (datetime.mk 2024 6 1 0 0 0 0).
Proof.
  assert (datetime.midnight (datetime.mk 2024 6 1 0 0 0 0)) as Hm
    by (repeat split).
  split; [exact carol_book_reachable|]. split; [exact Hm|].
  split; [reflexivity|].
  exact (upcoming_agrees_at_midnight _ _ _ carol_book_reachable Hm eq_refl).
Defined.

(** ** When the query returns and when it raises *)

Lemma valid_datetime_inv dt :
  AddressBook.valid_datetime dt →
  1 ≤ datetime.year dt ≤ 9999 ∧ 1 ≤ datetime.month dt ≤ 12
  ∧ 1 ≤ datetime.day dt ≤ datetime.days_in_month (datetime.year dt) (datetime.month dt).
Proof. unfold AddressBook.valid_datetime. by intros (_ & ? & ? & ?)%new_inv. Qed.

Lemma add_days_week_returns today :
  AddressBook.valid_datetime today → datetime.year today < 9999 →
  succeeds (datetime.add_days today 7).
Proof.
  intros (Hy & Hm & Hd)%valid_datetime_inv Hy'.
  pose proof (days_in_month_bounds (datetime.year today) _ Hm) as Hdim.
  unfold datetime.add_days, datetime.toordinal, datetime.ymd2ord.
  set (y := datetime.year today) in *. set (m := datetime.month today) in *.
  set (d := datetime.day today) in *.
  assert (0 ≤ datetime.days_before_month y m ≤ 335) as Hdbm.
  { unfold datetime.days_before_month, datetime.table.
    assert (m = 1 ∨ m = 2 ∨ m = 3 ∨ m = 4 ∨ m = 5 ∨ m = 6 ∨ m = 7 ∨ m = 8
            ∨ m = 9 ∨ m = 10 ∨ m = 11 ∨ m = 12) as Hcases by lia.
    clearbody m. clear -Hcases.
    repeat (destruct Hcases as [->|Hcases]); try subst m;
      destruct (datetime.is_leap y); vm_compute; split; discriminate. }
  assert (0 ≤ datetime.days_before_year y ≤ 3651329) as Hdby.
  { unfold datetime.days_before_year. clearbody y. Z.div_mod_to_equations. lia. }
  rewrite (proj2 (andb_true_iff _ _)).
  - destruct (datetime.ord2ymd _) as [[??]?]. by eexists.
  - unfold datetime.MAXORDINAL. split; [apply Z.ltb_lt | apply Z.leb_le]; lia.
Qed.

Lemma days_in_month_other_year y y' m d :
  1 ≤ m ≤ 12 → d ≤ datetime.days_in_month y m → ¬ (m = 2 ∧ d = 29) →
  d ≤ datetime.days_in_month y' m.
Proof.
  intros Hm Hd Hleap. unfold datetime.days_in_month in *.
  destruct (Z.eqb_spec m 2) as [->|Hne]; cbn [andb] in *; [|done].
  change (datetime.table datetime.DAYS_IN_MONTH 2) with 28 in *.
  destruct (datetime.is_leap y), (datetime.is_leap y'); lia.
Qed.

Lemma replace_year_returns y0 y m d y' :
  DDMMYYYY.real_date d m y0 = true → 1 ≤ y' ≤ 9999 → ¬ (m = 2 ∧ d = 29) →
  datetime.replace_year (datetime.mk y m d 0 0 0 0) y'
  = OK (datetime.mk y' m d 0 0 0 0).
Proof.
  unfold DDMMYYYY.real_date. rewrite !andb_true_iff, !Z.leb_le.
  intros [[[[Hy Hm1] Hm2] Hd1] Hd2] Hy' Hleap.
  unfold datetime.replace_year. cbn. apply new_midnight; [|lia].
  unfold DDMMYYYY.real_date. rewrite !andb_true_iff, !Z.leb_le.
  repeat split; try lia. by eapply days_in_month_other_year.
Qed.

Lemma upcoming_loop_returns `{UnicodeData} today next_week records acc :
  1 ≤ datetime.year today < 9999 →
  Forall Record.reachable records →
  (∀ r b, r ∈ records → Record.birthday r = Some b → ¬ AddressBook.leap_day b) →
  succeeds (AddressBook.upcoming_loop today next_week records acc).
Proof.
  intros Hy. revert acc. induction records as [|r records IH]; intros acc Hall Hleap.
  - by eexists.
  - apply list.Forall_cons_1 in Hall as [Hr Hall]. cbn.
    assert (∀ acc', succeeds
              (AddressBook.upcoming_loop today next_week records acc')) as Hrest.
    { intros acc'. apply IH; [done|]. intros r' b' Hin. apply Hleap.
      apply elem_of_cons. by right. }
    destruct (Record.birthday r) as [b|] eqn:Eb; [|apply Hrest].
    destruct (reachable_birthday_parsed r b Hr Eb) as [s Hs].
    apply parsed_birthday in Hs as [Hmid Hreal].
    specialize (Hleap r b (list_elem_of_here _ _) Eb).
    destruct b as [[y m d hh mm ss us]]. destruct Hmid as (? & ? & ? & ?).
    unfold AddressBook.leap_day in Hleap. cbn in *. subst.
    rewrite (replace_year_returns y) by (done || lia). cbn.
    destruct (datetime.lt _ _); [|apply Hrest].
    rewrite (replace_year_returns y) by (done || lia). cbn. apply Hrest.
Qed.

(** X2.  For a book without a birthday on 29 February and a clock before
    the year 9999, the query returns, at any time of day. *)
Theorem upcoming_returns `{UnicodeData} book today :
  AddressBook.reachable book →
  AddressBook.valid_datetime today → datetime.year today < 9999 →
  (∀ r b, r ∈ dict.values book → Record.birthday r = Some b →
          ¬ AddressBook.leap_day b) →
  succeeds (AddressBook.get_upcoming_birthdays book today).
Proof.
  intros Hbook Ht Hy Hleap. unfold AddressBook.get_upcoming_birthdays.
  destruct (add_days_week_returns today Ht Hy) as [nw ->]. cbn.
  apply valid_datetime_inv in Ht as (? & _).
  apply upcoming_loop_returns; [lia | by apply reachable_records | done].
Qed.

Lemma upcoming_returns_witness :
  AddressBook.reachable [(txt "Carol", carol)]
  ∧ AddressBook.valid_datetime (datetime.mk 2024 6 1 10 30 0 0)
  ∧ succeeds (AddressBook.get_upcoming_birthdays [(txt "Carol", carol)]
                (datetime.mk 2024 6 1 10 30 0 0)).
Proof.
  assert (AddressBook.valid_datetime (datetime.mk 2024 6 1 10 30 0 0)) as Hv
    by reflexivity.
  split; [exact carol_book_reachable|]. split; [exact Hv|].
  apply (upcoming_returns _ _ carol_book_reachable Hv); [reflexivity|].
  intros r b ->%list_elem_of_singleton [= <-] [Hmonth _]. discriminate Hmonth.
Defined.

Lemma replace_year_raises dt y e :
  datetime.replace_year dt y = Raise e → e = ValueError.
Proof. apply new_raises. Qed.

Lemma replace_year_leap_day dt y :
  datetime.month dt = 2 → datetime.day dt = 29 → datetime.is_leap y = false →
  datetime.replace_year dt y = Raise ValueError.
Proof.
  intros Hm Hd Hy.
  destruct (datetime.replace_year dt y) as [dt'|e] eqn:E.
  - unfold datetime.replace_year in E. apply new_inv in E as (_ & _ & _ & Hdim).
    rewrite Hm, Hd in Hdim. unfold datetime.days_in_month in Hdim.
    rewrite Hy in Hdim. cbn [Z.eqb Pos.eqb andb] in Hdim.
    change (datetime.table datetime.DAYS_IN_MONTH 2) with 28 in Hdim. lia.
  - by rewrite (replace_year_raises _ _ _ E).
Qed.

Lemma upcoming_loop_leap_day today next_week records acc :
  datetime.is_leap (datetime.year today) = false →
  (∃ r b, r ∈ records ∧ Record.birthday r = Some b ∧ AddressBook.leap_day b) →
  AddressBook.upcoming_loop today next_week records acc = Raise ValueError.
Proof.
  intros Hy. revert acc.
  induction records as [|r records IH]; intros acc (r0 & b0 & Hin & Hb0 & Hleap).
  - by apply elem_of_nil in Hin.
  - cbn. destruct (Record.birthday r) as [b|] eqn:Eb.
    + destruct (datetime.replace_year (Birthday.value b) (datetime.year today))
        as [bd|e] eqn:E1; cbn; [|by rewrite (replace_year_raises _ _ _ E1)].
      assert (r0 ∈ records) as Hin'.
      { apply elem_of_cons in Hin as [->|?]; [|done].
        rewrite Eb in Hb0. injection Hb0 as ->. destruct Hleap as [Hm Hd].
        by rewrite replace_year_leap_day in E1. }
      destruct (datetime.lt bd today).
      * destruct (datetime.replace_year bd (datetime.year today + 1))
          as [bd2|e] eqn:E2; cbn; [|by rewrite (replace_year_raises _ _ _ E2)].
        apply IH. eauto.
      * cbn. apply IH. eauto.
    + apply IH. apply elem_of_cons in Hin as [->|?]; [congruence | eauto].
Qed.

(** X3.  In a year that is not a leap year, one birthday on 29 February in
    the book makes the query raise [ValueError]. *)
Theorem upcoming_leap_day_raises book today :
  succeeds (datetime.add_days today 7) →
  datetime.is_leap (datetime.year today) = false →
  (∃ r b, r ∈ dict.values book ∧ Record.birthday r = Some b
          ∧ AddressBook.leap_day b) →
  AddressBook.get_upcoming_birthdays book today = Raise ValueError.
Proof.
  intros [nw Hnw] Hy Hex. unfold AddressBook.get_upcoming_birthdays.
  rewrite Hnw. cbn. by apply upcoming_loop_leap_day.
Qed.

Lemma upcoming_leap_day_raises_witness :
  datetime.is_leap 2023 = false
  ∧ AddressBook.get_upcoming_birthdays [(txt "Ann", ann)]
      (datetime.mk 2023 6 1 10 30 0 0)
    = Raise ValueError.
Proof.
  split; [reflexivity|].
  apply upcoming_leap_day_raises; [by eexists | reflexivity |].
  exists ann, (Birthday.mk (datetime.mk 2000 2 29 0 0 0 0)).
  split; [by apply list_elem_of_singleton|]. by repeat split.
Defined.

(** * More on records *)

Lemma find_loop_None phone l :
  Record.find_loop phone l = None ↔ Forall (λ p, Phone.value p ≠ phone) l.
Proof.
  induction l as [|q l IH]; cbn; [by split; [constructor|]|].
  case_bool_decide as Hq.
  - split; [done|]. intros [? _]%list.Forall_cons_1. done.
  - rewrite IH. split; [by constructor | by intros [_ ?]%list.Forall_cons_1].
Qed.

Lemma find_loop_filter_ne phone q l :
  q ≠ phone →
  Record.find_loop q (filter (λ p, Phone.value p ≠ phone) l)
  = Record.find_loop q l.
Proof.
  intros Hne. induction l as [|p l IH]; [done|].
  rewrite list.filter_cons. cbn. case_decide as Hp; cbn.
  - by rewrite IH.
  - rewrite bool_decide_eq_false_2; [done|]. congruence.
Qed.

Lemma find_loop_app q l1 l2 :
  Record.find_loop q (l1 ++ l2)
  = match Record.find_loop q l1 with
    | Some p => Some p
    | None => Record.find_loop q l2
    end.
Proof.
  induction l1 as [|p l1 IH]; cbn; [done|]. by case_bool_decide.
Qed.

Lemma filter_all {A} (P : A → Prop) `{∀ x, Decision (P x)} (l : list A) :
  Forall P l → filter P l = l.
Proof.
  induction 1 as [|x l Hx _ IH]; [done|].
  rewrite list.filter_cons. rewrite decide_True by done. by rewrite IH.
Qed.

(** X4.  [remove_phone] always returns, also when the number is
    not stored: then the record is unchanged.  It drops every stored phone
    with the given value, not only the first, and nothing else: the phones
    kept are in their order, and together with the phones dropped, all of
    the given value, they are the phones stored before, each as often as
    before.  Name and birthday are left alone; afterwards [find_phone] of
    that value finds nothing, and every other lookup is as before. *)
Theorem remove_phone_removes_every_match (r : Record.t) (phone : text) :
  ∃ r', Record.remove_phone phone r = (r', OK tt)
    ∧ Record.name r' = Record.name r
    ∧ Record.birthday r' = Record.birthday r
    ∧ Record.phones r' `sublist_of` Record.phones r
    ∧ (∀ p, p ∈ Record.phones r' ↔ p ∈ Record.phones r ∧ Phone.value p ≠ phone)
    ∧ (∃ dropped,
         Forall (λ p, Phone.value p = phone) dropped
         ∧ Record.phones r ≡ₚ Record.phones r' ++ dropped)
    ∧ Record.find_phone r' phone = None
    ∧ (∀ q, q ≠ phone → Record.find_phone r' q = Record.find_phone r q)
    ∧ (Record.find_phone r phone = None → r' = r).
Proof.
  eexists. split; [reflexivity|]. cbn.
  split; [done|]. split; [done|]. split; [apply sublist_filter|].
  split; [intros p; rewrite list_elem_of_filter; tauto|].
  split.
  { exists (filter (λ p, ¬ Phone.value p ≠ phone) (Record.phones r)). split.
    - apply list.Forall_forall. intros p [Hp _]%list_elem_of_filter.
      by destruct (decide (Phone.value p = phone)).
    - by rewrite filter_app_complement. }
  unfold Record.find_phone. cbn. split; [|split].
  - apply find_loop_None, list.Forall_forall.
    by intros p [? _]%list_elem_of_filter.
  - intros q Hq. by apply find_loop_filter_ne.
  - intros Hnone%find_loop_None. destruct r as [n ps b]. cbn in *.
    unfold Record.set_phones. cbn. f_equal. by apply filter_all.
Qed.

(** X5.  After [add_phone] of a valid number the phone is the last of
    the list, [find_phone] of that number finds a phone with that value,
    lookups of other numbers are as before, and, when the number was not
    stored before, [remove_phone] of it gives the record back as it was. *)
Theorem add_phone_then_find `{UnicodeData} (r : Record.t) (phone : text) :
  Phone.validate phone = true →
  ∃ r', Record.add_phone phone r = (r', OK tt)
    ∧ Record.name r' = Record.name r
    ∧ Record.birthday r' = Record.birthday r
    ∧ Record.phones r' = Record.phones r ++ [Phone.mk phone]
    ∧ Record.find_phone r' phone = Some (Phone.mk phone)
    ∧ (∀ q, q ≠ phone → Record.find_phone r' q = Record.find_phone r q)
    ∧ (Record.find_phone r phone = None →
         Record.remove_phone phone r' = (r, OK tt)).
Proof.
  intros Hv. rewrite add_phone_eq, Hv. eexists. split; [reflexivity|].
  cbn. split; [done|]. split; [done|]. split; [done|].
  unfold Record.find_phone. cbn. rewrite !find_loop_app. cbn.
  split; [|split].
  - destruct (Record.find_loop phone (Record.phones r)) as [p|] eqn:E.
    + assert (Phone.value p = phone) as <-.
      { clear -E. induction (Record.phones r) as [|q l IH]; [done|].
        cbn in E. case_bool_decide; [by injection E as <- | by apply IH]. }
      by destruct p.
    + by rewrite bool_decide_eq_true_2.
  - intros q Hq. rewrite find_loop_app. cbn.
    rewrite bool_decide_eq_false_2 by congruence.
    by destruct (Record.find_loop q (Record.phones r)).
  - intros Hnone%find_loop_None. unfold Record.remove_phone, modify. cbn.
    rewrite list.filter_app, (filter_all _ _ Hnone).
    rewrite list.filter_cons, decide_False by (cbn; tauto).
    rewrite list.filter_nil, app_nil_r. by destruct r.
Qed.

Lemma add_phone_then_find_witness :
  Phone.validate (txt "5555555555") = true
  ∧ Record.find_phone (Record.add_phone (txt "5555555555") john).1
      (txt "5555555555")
    = Some (Phone.mk (txt "5555555555")).
Proof.
  split; [reflexivity|].
  destruct (add_phone_then_find john (txt "5555555555") eq_refl)
    as (r' & Hr & _ & _ & _ & Hfind & _).
  rewrite Hr. exact Hfind.
Defined.

(** X6.  [edit_phone] never changes how many phones are stored,
    whether it returns or raises.  When the new number is valid and the old
    one is stored, [find_phone] of the new number finds a phone with that
    value afterwards. *)
Theorem edit_phone_then_find `{UnicodeData} (r : Record.t) (old new : text) :
  length (Record.phones (Record.edit_phone old new r).1)
  = length (Record.phones r)
  ∧ (Phone.validate new = true →
     is_Some (Record.find_phone r old) →
     Record.find_phone (Record.edit_phone old new r).1 new
     = Some (Phone.mk new)).
Proof.
  rewrite edit_phone_eq. split.
  - destruct (Phone.validate new); [|done].
    destruct (edit_loop_phones old new 0 (Record.phones r) r) as [->|[j ->]];
      [done | apply length_insert].
  - intros -> [p Hp]. unfold Record.find_phone in *.
    assert (∃ before q after,
              Record.phones r = before ++ q :: after
              ∧ Forall (λ x, Phone.value x ≠ old) before
              ∧ Phone.value q = old) as (before & q & after & Hr & Hb & Hq).
    { clear -Hp. induction (Record.phones r) as [|x l IH]; [done|].
      cbn in Hp. case_bool_decide as Hx.
      - exists [], x, l. by repeat split.
      - destruct (IH Hp) as (b & q & a & -> & ? & ?).
        exists (x :: b), q, a. split; [done|]. split; [|done].
        by apply Forall_cons_2. }
    pose proof (edit_loop_first_match old new before q after [] r Hr Hb Hq) as Hl.
    cbn in Hl. rewrite <- Hr in Hl. rewrite Hl, find_loop_app. cbn.
    rewrite bool_decide_eq_true_2 by done.
    destruct (Record.find_loop new before) as [x|] eqn:E; [|done].
    assert (Phone.value x = new) as <-.
    { clear -E. induction before as [|y l IH]; [done|].
      cbn in E. case_bool_decide; [by injection E as <- | by apply IH]. }
    by destruct x.
Qed.

Lemma add_birthday_eq `{UnicodeData} s r :
  Record.add_birthday s r
  = match Birthday.init s with
    | OK b => (Record.set_birthday r (Some b), OK tt)
    | Raise e => (r, Raise e)
    end.
Proof.
  unfold Record.add_birthday, mbind, method_bind, lift.
  by destruct (Birthday.init s).
Qed.

Lemma birthday_init_valid `{UnicodeData} s :
  DDMMYYYY.valid s = true →
  ∃ b, Birthday.init s = OK b
    ∧ datetime.strftime_dmY (Birthday.value b) = DDMMYYYY.short_year s.
Proof.
  unfold DDMMYYYY.valid. intros Hv.
  destruct (DDMMYYYY.fields s) as [[[d m] y]|] eqn:Hf; [|done].
  destruct (strptime_fixed s d m y Hf Hv) as [Hp Hr].
  exists (Birthday.mk (datetime.mk y m d 0 0 0 0)). split; [|done].
  by apply birthday_init_OK.
Qed.

Lemma birthday_init_raises `{UnicodeData} s e :
  Birthday.init s = Raise e → e = ValueError ∧ DDMMYYYY.valid s = false.
Proof.
  intros He. split.
  - unfold Birthday.init in He.
    destruct (datetime.strptime_dmY s) as [|e'] eqn:E; [done|].
    apply strptime_raises in E as ->. by injection He.
  - destruct (DDMMYYYY.valid s) eqn:Hv; [|done].
    destruct (birthday_init_valid s Hv) as (b & Hb & _). congruence.
Qed.

(** X7.  [add_birthday].  A call that raises raises [ValueError],
    leaves the record as it was, and its text is not a real date written
    DD.MM.YYYY.  A call that returns keeps name and phones and stores the
    parsed birthday in place of an earlier one: a later call gives the same
    record as if the earlier had not been made.  For a real date written
    DD.MM.YYYY the call returns, and [__str__] of the record is then its
    name and phones followed by [, Birthday: ] and the text without the
    leading zeros of its year: the text itself exactly when the year is
    1000 or later. *)
Theorem add_birthday_sets_or_keeps `{UnicodeData} (r : Record.t) (s : text) :
  (∀ r' e, Record.add_birthday s r = (r', Raise e) →
     r' = r ∧ e = ValueError ∧ DDMMYYYY.valid s = false)
  ∧ (∀ r', Record.add_birthday s r = (r', OK tt) →
       Record.name r' = Record.name r
       ∧ Record.phones r' = Record.phones r
       ∧ (∃ b, Record.birthday r' = Some b ∧ Birthday.init s = OK b)
       ∧ (∀ s2 r2, Record.add_birthday s2 r' = (r2, OK tt) →
                   Record.add_birthday s2 r = (r2, OK tt)))
  ∧ (DDMMYYYY.valid s = true →
       ∃ r', Record.add_birthday s r = (r', OK tt)
         ∧ Record.str r'
           = txt "Contact name: " ++ Name.value (Record.name r)
             ++ txt ", phones: "
             ++ Record.join (txt "; ") (Phone.value <$> Record.phones r)
             ++ txt ", Birthday: " ++ DDMMYYYY.short_year s
         ∧ (∀ d m y, DDMMYYYY.fields s = Some (d, m, y) →
              DDMMYYYY.short_year s = s ↔ 1000 ≤ y)).
Proof.
  rewrite add_birthday_eq. split; [|split].
  - intros r' e. destruct (Birthday.init s) as [b|e'] eqn:E; [done|].
    intros [= <- <-]. split; [done|]. by apply birthday_init_raises.
  - intros r'. destruct (Birthday.init s) as [b|e'] eqn:E; [|done].
    intros [= <-]. cbn. split; [done|]. split; [done|]. split; [eauto|].
    intros s2 r2. rewrite !add_birthday_eq.
    by destruct (Birthday.init s2).
  - intros (b & -> & Hs)%birthday_init_valid. eexists. split; [reflexivity|].
    split; [|apply short_year_same].
    unfold Record.str.
    cbn [Record.birthday Record.set_birthday Record.name Record.phones].
    by rewrite Hs.
Qed.

Lemma add_birthday_sets_or_keeps_witness :
  DDMMYYYY.valid (txt "05.06.2000") = true
  ∧ Record.str (Record.add_birthday (txt "05.06.2000") john).1
    = txt "Contact name: John, phones: 1111111111; 0987654321, Birthday: 05.06.2000".
Proof.
  split; [reflexivity|].
  destruct (proj2 (proj2 (add_birthday_sets_or_keeps john (txt "05.06.2000")))
              eq_refl) as (r' & Hr & Hstr & _).
  rewrite Hr. exact Hstr.
Defined.

(** A birthday of the year 999 is shown with three digits. *)
Example str_year_999 :
  Record.str (Record.add_birthday (txt "01.01.0999") john).1
  = txt "Contact name: John, phones: 1111111111; 0987654321, Birthday: 01.01.999".
Proof. reflexivity. Qed.

(** * More on the address book *)

Lemma setitem_absent {V} (d : list (text * V)) k v :
  dict.getitem d k = None → dict.setitem d k v = d ++ [(k, v)].
Proof.
  induction d as [|[k0 v0] d IH]; cbn; [done|].
  case_bool_decide; [done|]. intros ?. f_equal. by apply IH.
Qed.

Lemma remove_app_last {V} (d : list (text * V)) k v :
  dict.getitem d k = None → dict.remove (d ++ [(k, v)]) k = d.
Proof.
  induction d as [|[k0 v0] d IH]; cbn.
  - by rewrite bool_decide_eq_true_2.
  - case_bool_decide; [done|]. intros ?. f_equal. by apply IH.
Qed.

Lemma setitem_lookup {V} (d : list (text * V)) k v i k0 v0 :
  d !! i = Some (k0, v0) →
  NoDup (dict.keys d) →
  dict.setitem d k v !! i = Some (k0, if bool_decide (k0 = k) then v else v0).
Proof.
  unfold dict.keys. revert i. induction d as [|[k1 v1] d IH]; intros i; [done|].
  intros Hi [Hk1 Hnd]%list.NoDup_cons. cbn [dict.setitem].
  destruct (decide (k1 = k)) as [->|Hk].
  - rewrite bool_decide_eq_true_2 by done. destruct i as [|i]; cbn in *.
    + injection Hi as <- ->. by rewrite bool_decide_eq_true_2.
    + rewrite Hi. rewrite bool_decide_eq_false_2; [done|].
      intros ->. apply Hk1. apply list_elem_of_fmap. exists (k, v0).
      split; [done|]. by eapply list_elem_of_lookup_2.
  - rewrite bool_decide_eq_false_2 by done. destruct i as [|i]; cbn in *.
    + injection Hi as <- <-. by rewrite bool_decide_eq_false_2.
    + by apply IH.
Qed.

Lemma setitem_length_present {V} (d : list (text * V)) k v :
  length (dict.setitem d k v)
  = if dict.contains d k then length d else S (length d).
Proof.
  unfold dict.contains. induction d as [|[k0 v0] d IH]; cbn; [done|].
  case_bool_decide; cbn; [done|]. rewrite IH.
  by destruct (dict.getitem d k).
Qed.

(** X8.  In a book with unique keys, [add_record] appends the
    record when its name is new, and otherwise replaces the stored record
    in place: the keys, their order and the length stay.  Entries under
    other names keep their position and value, and adding the same record
    once more changes nothing. *)
Theorem add_record_keeps_positions (book : AddressBook.t) (record : Record.t) :
  NoDup (dict.keys book) →
  let name := Name.value (Record.name record) in
  let book' := (AddressBook.add_record record book).1 in
  (AddressBook.find book name = None → book' = book ++ [(name, record)])
  ∧ (is_Some (AddressBook.find book name) →
       dict.keys book' = dict.keys book ∧ length book' = length book)
  ∧ (∀ i k r, book !! i = Some (k, r) →
       book' !! i = Some (k, if bool_decide (k = name) then record else r))
  ∧ (AddressBook.add_record record book').1 = book'.
Proof.
  intros Hnd. cbn zeta. rewrite add_record_eq. cbn [fst].
  unfold AddressBook.find. split; [|split; [|split]].
  - apply setitem_absent.
  - intros [r0 Hr0]. rewrite keys_setitem, setitem_length_present.
    unfold dict.contains. by rewrite Hr0.
  - intros i k r Hi. by apply setitem_lookup.
  - rewrite add_record_eq. cbn [fst].
    set (k := Name.value (Record.name record)). clearbody k. clear Hnd.
    induction book as [|[k0 v0] d IH]; cbn.
    + by rewrite bool_decide_eq_true_2.
    + case_bool_decide as Hk; cbn.
      * by rewrite bool_decide_eq_true_2.
      * rewrite bool_decide_eq_false_2 by done. by rewrite IH.
Qed.

Lemma add_record_keeps_positions_witness :
  NoDup (dict.keys [(txt "Alice", alice); (txt "Bob", bob)])
  ∧ (AddressBook.add_record (with_birthday "Alice" 1999 1 2)
       [(txt "Alice", alice); (txt "Bob", bob)]).1 !! 0%nat
    = Some (txt "Alice", with_birthday "Alice" 1999 1 2).
Proof.
  assert (NoDup (dict.keys [(txt "Alice", alice); (txt "Bob", bob)])) as Hnd.
  { apply list.NoDup_cons. split; [|apply list.NoDup_singleton].
    intros [=]%list_elem_of_singleton. }
  split; [exact Hnd|].
  exact (proj1 (proj2 (proj2
           (add_record_keeps_positions _ (with_birthday "Alice" 1999 1 2) Hnd)))
           0%nat _ _ eq_refl).
Defined.

(** X9.  Adding a record whose name is not in the book and then
    deleting that name gives back the book as it was, and returns. *)
Theorem add_then_delete_restores (book : AddressBook.t) (record : Record.t) :
  AddressBook.find book (Name.value (Record.name record)) = None →
  AddressBook.delete (Name.value (Record.name record))
    (AddressBook.add_record record book).1
  = (book, OK tt).
Proof.
  unfold AddressBook.find. intros Hnone.
  rewrite add_record_eq, delete_eq. cbn [fst].
  unfold dict.contains. rewrite getitem_setitem.
  rewrite setitem_absent by done. by rewrite remove_app_last.
Qed.

Lemma add_then_delete_restores_witness :
  AddressBook.find [(txt "Alice", alice)] (Name.value (Record.name bob)) = None
  ∧ AddressBook.delete (txt "Bob")
      (AddressBook.add_record bob [(txt "Alice", alice)]).1
    = ([(txt "Alice", alice)], OK tt).
Proof.
  split; [reflexivity|].
  exact (add_then_delete_restores [(txt "Alice", alice)] bob eq_refl).
Defined.

(** * More on the upcoming-birthday query *)

Lemma upcoming_loop_selects today next_week records acc l :
  AddressBook.upcoming_loop today next_week records acc = OK l →
  ∃ l', l = acc ++ l'
    ∧ l' `sublist_of`
        omap (λ r, b ← Record.birthday r; Some (Name.value (Record.name r), b))
             records
    ∧ Forall (λ '(_, b),
                ∃ bd, datetime.le today bd = true
                      ∧ datetime.le bd next_week = true
                      ∧ datetime.month bd = datetime.month (Birthday.value b)
                      ∧ datetime.day bd = datetime.day (Birthday.value b)
                      ∧ (datetime.year bd = datetime.year today
                         ∨ datetime.year bd = datetime.year today + 1)) l'.
Proof.
  revert acc. induction records as [|r records IH]; intros acc; cbn.
  - intros [= <-]. exists []. by rewrite app_nil_r.
  - destruct (Record.birthday r) as [b|] eqn:Eb; cbn.
    + destruct (datetime.replace_year (Birthday.value b) (datetime.year today))
        as [bd|] eqn:E1; cbn; [|done].
      apply replace_year_inv in E1.
      destruct (if datetime.lt bd today
                then datetime.replace_year bd (datetime.year today + 1)
                else OK bd) as [bd'|] eqn:E2; cbn; [|done].
      assert (datetime.month bd' = datetime.month (Birthday.value b)
              ∧ datetime.day bd' = datetime.day (Birthday.value b)
              ∧ (datetime.year bd' = datetime.year today
                 ∨ datetime.year bd' = datetime.year today + 1)) as Hbd'.
      { destruct (datetime.lt bd today).
        - apply replace_year_inv in E2. subst bd' bd. cbn. auto.
        - injection E2 as <-. subst bd. cbn. auto. }
      destruct (datetime.le today bd' && datetime.le bd' next_week) eqn:Ew.
      * intros (l' & -> & Hsub & Hall)%IH.
        exists ((Name.value (Record.name r), b) :: l').
        split; [by rewrite <- app_assoc|]. split; [by constructor|].
        apply Forall_cons_2; [|done].
        apply andb_true_iff in Ew as [? ?]. exists bd'. tauto.
      * intros (l' & -> & Hsub & Hall)%IH. exists l'.
        split; [done|]. split; [by constructor | done].
    + by intros (l' & -> & Hsub & Hall)%IH; exists l'.
Qed.

(** X10.  When the query returns, its result is a selection of
    the (name, birthday) pairs of the records with a birthday, in the order
    of the book, none repeated or invented; today plus seven days exists;
    and for each entry a date with the birthday's month and day, in
    today's year or the next, lies between today and today plus seven
    days. *)
Theorem upcoming_is_ordered_selection (book : AddressBook.t)
    (today : datetime.t) (l : list (text * Birthday.t)) :
  AddressBook.get_upcoming_birthdays book today = OK l →
  l `sublist_of`
    omap (λ r, b ← Record.birthday r; Some (Name.value (Record.name r), b))
         (dict.values book)
  ∧ ∃ next_week,
      datetime.add_days today 7 = OK next_week
      ∧ Forall (λ '(_, b),
                  ∃ bd, datetime.le today bd = true
                        ∧ datetime.le bd next_week = true
                        ∧ datetime.month bd = datetime.month (Birthday.value b)
                        ∧ datetime.day bd = datetime.day (Birthday.value b)
                        ∧ (datetime.year bd = datetime.year today
                           ∨ datetime.year bd = datetime.year today + 1)) l.
Proof.
  unfold AddressBook.get_upcoming_birthdays.
  destruct (datetime.add_days today 7) as [nw|] eqn:E; cbn; [|done].
  intros (l' & -> & Hsub & Hall)%upcoming_loop_selects. cbn.
  split; [done|]. by exists nw.
Qed.

Lemma upcoming_is_ordered_selection_witness :
  AddressBook.get_upcoming_birthdays
    [(txt "Alice", alice); (txt "John", john); (txt "Bob", bob)]
    (datetime.mk 2024 6 1 10 0 0 0)
  = OK [(txt "Alice", Birthday.mk (datetime.mk 2000 6 5 0 0 0 0))]
  ∧ [(txt "Alice", Birthday.mk (datetime.mk 2000 6 5 0 0 0 0))]
    `sublist_of`
    omap (λ r, b ← Record.birthday r; Some (Name.value (Record.name r), b))
         (dict.values [(txt "Alice", alice); (txt "John", john); (txt "Bob", bob)]).
Proof.
  split; [reflexivity|].
  exact (proj1 (upcoming_is_ordered_selection
                  [(txt "Alice", alice); (txt "John", john); (txt "Bob", bob)]
                  (datetime.mk 2024 6 1 10 0 0 0) _ eq_refl)).
Defined.

(** * The commands *)

Lemma setitem_same {V} (d : list (text * V)) k v :
  dict.getitem d k = Some v → dict.setitem d k v = d.
Proof.
  induction d as [|[k0 v0] d IH]; cbn; [done|].
  case_bool_decide as Hk; [by intros [= ->]|]. intros ?. f_equal. by apply IH.
Qed.

Lemma setitem_setitem {V} (d : list (text * V)) k v1 v2 :
  dict.setitem (dict.setitem d k v1) k v2 = dict.setitem d k v2.
Proof.
  induction d as [|[k0 v0] d IH]; cbn.
  - by rewrite bool_decide_eq_true_2.
  - case_bool_decide as Hk; cbn.
    + by rewrite bool_decide_eq_true_2.
    + rewrite bool_decide_eq_false_2 by done. by rewrite IH.
Qed.

Lemma add_phones_valid `{UnicodeData} phones r :
  Forall (λ p, Phone.validate p = true) phones →
  bot.add_phones phones r
  = (Record.set_phones r (Record.phones r ++ (Phone.mk <$> phones)), OK tt).
Proof.
  intros Hall. revert r. induction Hall as [|p phones Hp _ IH]; intros r.
  - cbn. rewrite app_nil_r. by destruct r.
  - cbn [bot.add_phones]. unfold mbind, method_bind.
    rewrite add_phone_eq, Hp, IH. cbn. by rewrite <- app_assoc.
Qed.

Lemma add_phones_invalid `{UnicodeData} ok bad rest r :
  Forall (λ p, Phone.validate p = true) ok →
  Phone.validate bad = false →
  bot.add_phones (ok ++ bad :: rest) r
  = (Record.set_phones r (Record.phones r ++ (Phone.mk <$> ok)), Raise ValueError).
Proof.
  intros Hall Hbad. revert r. induction Hall as [|p ok Hp _ IH]; intros r.
  - cbn [bot.add_phones app]. unfold mbind, method_bind.
    rewrite add_phone_eq, Hbad. cbn. rewrite app_nil_r. by destruct r.
  - cbn [bot.add_phones app]. unfold mbind, method_bind.
    rewrite add_phone_eq, Hp, IH. cbn. by rewrite <- app_assoc.
Qed.

(** A list of phones is all valid, or splits at its first invalid one. *)
Lemma first_invalid `{UnicodeData} (phones : list text) :
  Forall (λ p, Phone.validate p = true) phones
  ∨ ∃ ok bad rest, phones = ok ++ bad :: rest
      ∧ Forall (λ p, Phone.validate p = true) ok
      ∧ Phone.validate bad = false.
Proof.
  induction phones as [|p phones IH]; [by left|].
  destruct (Phone.validate p) eqn:Hp.
  - destruct IH as [Hall|(ok & bad & rest & -> & Hok & Hbad)].
    + left. by constructor.
    + right. exists (p :: ok), bad, rest. split; [done|]. split; [|done].
      by constructor.
  - right. exists [], p, phones. by repeat split.
Qed.

Lemma forallb_validate `{UnicodeData} (phones : list text) :
  forallb Phone.validate phones = true
  ↔ Forall (λ p, Phone.validate p = true) phones.
Proof.
  induction phones as [|p phones IH]; cbn; [by split; [constructor|]|].
  rewrite andb_true_iff, IH. split; [intros [??]; by constructor|].
  by intros [??]%list.Forall_cons_1.
Qed.

Lemma forallb_validate_false `{UnicodeData} ok bad rest :
  Phone.validate bad = false →
  forallb Phone.validate (ok ++ bad :: rest) = false.
Proof.
  intros Hbad. apply not_true_is_false. intros Hall%forallb_validate.
  apply Forall_app in Hall as [_ [? _]%list.Forall_cons_1]. congruence.
Qed.

(** X11.  The command [add name phone ...] for a name that is not
    in the book.  When every phone is valid the contact is appended to the
    book, with the phones in the order given and no birthday, and the
    success line is printed.  When one phone is not, the text of the phone
    error is printed and the book is as before: the record built so far is
    dropped with the phones it had accepted.  The command returns in both
    cases. *)
Theorem add_command_new_contact `{UnicodeData}
    (w : bot.world) (name phone : text) (phones : list text) :
  AddressBook.find (bot.book w) name = None →
  bot.do_add (name :: phone :: phones) w
  = (if forallb Phone.validate (phone :: phones)
     then bot.say
            (bot.with_book w
               (bot.book w
                ++ [(name, Record.mk (Name.mk name)
                             (Phone.mk <$> phone :: phones) None)]))
            [bot.Chars (txt "New contact '" ++ name
                        ++ txt "' added with phone(s).")]
     else bot.say w bot.phone_error,
     bot.Returned tt).
Proof.
  intros Hnone. unfold bot.do_add, bot.try_except, bot.find.
  unfold mbind at 1. unfold bot.command_bind at 1. rewrite Hnone.
  change (Record.init name) with (OK (Record.mk (Name.mk name) [] None)).
  cbv iota beta.
  destruct (first_invalid (phone :: phones))
    as [Hall|(ok & bad & rest & Heq & Hok & Hbad)].
  - rewrite (proj2 (forallb_validate _) Hall), add_phones_valid by done.
    unfold bot.say, bot.with_book, bot.add_record, bot.print, mbind,
      bot.command_bind.
    rewrite add_record_eq.
    cbn [fst snd bot.book bot.printed bot.saved Record.name Name.value
         Record.phones Record.set_phones Record.birthday app].
    unfold AddressBook.find in Hnone. by rewrite setitem_absent.
  - rewrite Heq, forallb_validate_false, add_phones_invalid by done.
    reflexivity.
Qed.

Lemma add_command_new_contact_witness :
  AddressBook.find [] (txt "John") = None
  ∧ bot.do_add [txt "John"; txt "1234567890"; txt "12"] (bot.mk_world [] [] [])
    = (bot.mk_world [] [bot.phone_error] [], bot.Returned tt)
  ∧ bot.do_add [txt "John"; txt "1234567890"] (bot.mk_world [] [] [])
    = (bot.mk_world
         [(txt "John",
           Record.mk (Name.mk (txt "John")) [Phone.mk (txt "1234567890")] None)]
         [[bot.Chars (txt "New contact 'John' added with phone(s).")]] [],
       bot.Returned tt).
Proof.
  split; [reflexivity|]. split.
  - rewrite (add_command_new_contact (bot.mk_world [] [] []) (txt "John")
               (txt "1234567890") [txt "12"] eq_refl).
    reflexivity.
  - rewrite (add_command_new_contact (bot.mk_world [] [] []) (txt "John")
               (txt "1234567890") [] eq_refl).
    reflexivity.
Defined.

Ltac bot_step :=
  unfold bot.try_except, bot.find, bot.on_record, bot.print, bot.throw,
    bot.say, bot.with_book, mbind, bot.command_bind, mret, bot.command_ret.

(** X12.  The command [add name phone ...] for a name in the
    book appends the phones to the stored record.  When a phone is invalid
    the text of the phone error is printed, and the phones before it on the
    command line are stored all the same, the later ones are not: the
    record in the book is the object the loop was changing. *)
Theorem add_command_existing_contact `{UnicodeData}
    (w : bot.world) (name : text) (record : Record.t) (phones : list text) :
  AddressBook.find (bot.book w) name = Some record →
  phones ≠ [] →
  (Forall (λ p, Phone.validate p = true) phones →
     bot.do_add (name :: phones) w
     = (bot.say
          (bot.with_book w
             (dict.setitem (bot.book w) name
                (Record.set_phones record
                   (Record.phones record ++ (Phone.mk <$> phones)))))
          [bot.Chars (txt "Added phone(s) for existing contact '" ++ name
                      ++ txt "'.")],
        bot.Returned tt))
  ∧ (∀ ok bad rest,
       phones = ok ++ bad :: rest →
       Forall (λ p, Phone.validate p = true) ok →
       Phone.validate bad = false →
       bot.do_add (name :: phones) w
       = (bot.say
            (bot.with_book w
               (dict.setitem (bot.book w) name
                  (Record.set_phones record
                     (Record.phones record ++ (Phone.mk <$> ok)))))
            bot.phone_error,
          bot.Returned tt)).
Proof.
  intros Hfind Hne. destruct phones as [|phone phones]; [done|]. clear Hne.
  unfold bot.do_add. split.
  - intros Hall. bot_step. rewrite Hfind, add_phones_valid by done. reflexivity.
  - intros ok bad rest Heq Hok Hbad. bot_step.
    rewrite Hfind, Heq, add_phones_invalid by done. reflexivity.
Qed.

Lemma add_command_existing_contact_witness :
  AddressBook.find [(txt "John", john)] (txt "John") = Some john
  ∧ bot.book (bot.do_add [txt "John"; txt "5555555555"; txt "12"; txt "7777777777"]
                (bot.mk_world [(txt "John", john)] [] [])).1
    = [(txt "John",
        Record.set_phones john
          (Record.phones john ++ [Phone.mk (txt "5555555555")]))].
Proof.
  split; [reflexivity|].
  assert ([txt "5555555555"; txt "12"; txt "7777777777"] ≠ []) as Hne by done.
  assert (Forall (λ p, Phone.validate p = true) [txt "5555555555"]) as Hok
    by (apply Forall_cons_2; [reflexivity | apply Forall_nil_2]).
  rewrite (proj2 (add_command_existing_contact
                    (bot.mk_world [(txt "John", john)] [] [])
                    (txt "John") john _ eq_refl Hne)
             [txt "5555555555"] (txt "12") [txt "7777777777"] eq_refl
             Hok eq_refl).
  reflexivity.
Defined.

Lemma edit_first_phone `{UnicodeData} (r : Record.t) p rest new :
  Record.phones r = p :: rest →
  Record.edit_phone (Phone.value p) new r
  = if Phone.validate new
    then (Record.set_phones r (Phone.mk new :: rest), OK tt)
    else (r, Raise ValueError).
Proof.
  intros Hr. rewrite edit_phone_eq. destruct (Phone.validate new); [|done].
  rewrite Hr. cbn. rewrite bool_decide_eq_true_2 by done.
  unfold modify. by rewrite Hr.
Qed.

(** X13.  The command [change name new_phone] for a
    stored contact rewrites the first phone of the record and no other when
    the new number is valid; prints the text of the phone error and leaves
    the book as it was when it is not; and prints that no phone numbers
    were found, book unchanged, for a record without phones. *)
Theorem change_command_rewrites_first_phone `{UnicodeData}
    (w : bot.world) (name new_phone : text) (record : Record.t) :
  AddressBook.find (bot.book w) name = Some record →
  bot.do_change [name; new_phone] w
  = (match Record.phones record with
     | [] => bot.say w (bot.no_phones name)
     | _ :: rest =>
         if Phone.validate new_phone
         then bot.say
                (bot.with_book w
                   (dict.setitem (bot.book w) name
                      (Record.set_phones record (Phone.mk new_phone :: rest))))
                [bot.Chars (txt "Phone number changed for contact '" ++ name
                            ++ txt "'.")]
         else bot.say w bot.phone_error
     end,
     bot.Returned tt).
Proof.
  intros Hfind. unfold bot.do_change. bot_step. rewrite Hfind.
  destruct (Record.phones record) as [|p rest] eqn:Hr; [done|].
  cbn [fmap list_fmap]. rewrite (edit_first_phone record p rest) by done.
  destruct (Phone.validate new_phone); [done|].
  unfold AddressBook.find in Hfind. rewrite setitem_same by done.
  reflexivity.
Qed.

Lemma change_command_rewrites_first_phone_witness :
  AddressBook.find [(txt "John", john)] (txt "John") = Some john
  ∧ bot.book (bot.do_change [txt "John"; txt "2222222222"]
                (bot.mk_world [(txt "John", john)] [] [])).1
    = [(txt "John",
        Record.set_phones john
          [Phone.mk (txt "2222222222"); Phone.mk (txt "0987654321")])].
Proof.
  split; [reflexivity|].
  rewrite (change_command_rewrites_first_phone
             (bot.mk_world [(txt "John", john)] [] [])
             (txt "John") (txt "2222222222") john eq_refl).
  reflexivity.
Defined.

Lemma input_error_returned func args w w' :
  func args w = (w', bot.Returned tt) →
  bot.input_error func args w = (w', bot.Returned tt).
Proof. unfold bot.input_error, bot.try_except. by intros ->. Qed.

Lemma input_error_raised func args w w' x :
  func args w = (w', bot.Raised x) →
  bot.input_error func args w
  = (bot.say w'
       match bot.cls x with
       | bot.Core ValueError => bot.message x
       | bot.IndexError => [bot.Chars (txt "Invalid number of arguments.")]
       | bot.Core KeyError => [bot.Chars (txt "Invalid key.")]
       | bot.Core OverflowError =>
           bot.Chars (txt "An unexpected error occurred: ") :: bot.message x
       end,
     bot.Returned tt).
Proof.
  unfold bot.input_error, bot.try_except. intros ->.
  by destruct (bot.cls x) as [[]|].
Qed.

(** X14.  For a stored contact and a real date written
    DD.MM.YYYY, [add-birthday name date] stores the parsed birthday in the
    contact's record and prints the confirmation, and [show-birthday name]
    then prints the date back without the leading zeros of its year: as it
    was given exactly when the year is 1000 or later. *)
Theorem birthday_commands_round_trip `{UnicodeData}
    (w : bot.world) (name d : text) (record : Record.t) :
  AddressBook.find (bot.book w) name = Some record →
  DDMMYYYY.valid d = true →
  ∃ b, Birthday.init d = OK b
    ∧ let w1 := bot.say
                  (bot.with_book w
                     (dict.setitem (bot.book w) name
                        (Record.set_birthday record (Some b))))
                  [bot.Chars (txt "Birthday added for " ++ name ++ txt ".")] in
      bot.add_birthday [name; d] w = (w1, bot.Returned tt)
      ∧ bot.show_birthday [name] w1
        = (bot.say w1 [bot.Chars (txt "Birthday for " ++ name ++ txt ": "
                                  ++ DDMMYYYY.short_year d)],
           bot.Returned tt)
      ∧ (∀ dd mm yy, DDMMYYYY.fields d = Some (dd, mm, yy) →
           DDMMYYYY.short_year d = d ↔ 1000 ≤ yy).
Proof.
  intros Hfind (b & Hb & Hd)%birthday_init_valid. exists b. split; [done|].
  cbn zeta. split; [|split; [|apply short_year_same]].
  - apply input_error_returned. unfold bot.func_add_birthday. bot_step.
    rewrite Hfind, add_birthday_eq, Hb. reflexivity.
  - apply input_error_returned. unfold bot.func_show_birthday. bot_step.
    cbn [bot.book]. unfold AddressBook.find. rewrite getitem_setitem.
    cbn [option_bind Record.birthday Record.set_birthday]. by rewrite Hd.
Qed.

Lemma birthday_commands_round_trip_witness :
  AddressBook.find [(txt "John", john)] (txt "John") = Some john
  ∧ DDMMYYYY.valid (txt "05.06.2000") = true
  ∧ bot.printed
      (bot.show_birthday [txt "John"]
         (bot.add_birthday [txt "John"; txt "05.06.2000"]
            (bot.mk_world [(txt "John", john)] [] [])).1).1
    = [[bot.Chars (txt "Birthday added for John.")];
       [bot.Chars (txt "Birthday for John: 05.06.2000")]].
Proof.
  split; [reflexivity|]. split; [reflexivity|].
  destruct (birthday_commands_round_trip
              (bot.mk_world [(txt "John", john)] [] [])
              (txt "John") (txt "05.06.2000") john eq_refl eq_refl)
    as (b & Hb & Hadd & Hshow & _).
  cbv zeta in Hadd, Hshow. rewrite Hadd. cbn [fst]. rewrite Hshow. reflexivity.
Defined.

(** X15.  How [add-birthday] fails, always by a printed line
    and with the book unchanged.  With other than two arguments the line is
    the fixed text of [input_error] for [IndexError], not the usage text
    the handler raised; for an unknown name it says that the contact was
    not found; for a date that does not parse it is the text of the
    birthday error. *)
Theorem add_birthday_command_failures `{UnicodeData}
    (w : bot.world) (args : list text) :
  (length args ≠ 2%nat →
     bot.add_birthday args w
     = (bot.say w [bot.Chars (txt "Invalid number of arguments.")],
        bot.Returned tt))
  ∧ (∀ name d,
       args = [name; d] → AddressBook.find (bot.book w) name = None →
       bot.add_birthday args w = (bot.say w (bot.not_found name), bot.Returned tt))
  ∧ (∀ name d record,
       args = [name; d] → AddressBook.find (bot.book w) name = Some record →
       (∀ b, Birthday.init d ≠ OK b) →
       bot.add_birthday args w
       = (bot.say w bot.birthday_error, bot.Returned tt)).
Proof.
  split; [|split].
  - intros Hlen. unfold bot.add_birthday.
    rewrite (input_error_raised _ _ _ w
               (bot.mk_exception bot.IndexError
                  [bot.Chars (bot.usage "add-birthday"
                                [bot.word_name; bot.word_birth_date])])); [done|].
    unfold bot.func_add_birthday.
    destruct args as [|a [|b [|c l]]]; done.
  - intros name d -> Hnone. apply input_error_returned.
    unfold bot.func_add_birthday. bot_step. by rewrite Hnone.
  - intros name d record -> Hfind Hfail. unfold bot.add_birthday.
    destruct (Birthday.init d) as [b|e] eqn:E; [by destruct (Hfail b)|].
    destruct (birthday_init_raises _ _ E) as [-> _].
    rewrite (input_error_raised _ _ _
               w (bot.mk_exception (bot.Core ValueError) bot.birthday_error));
      [done|].
    unfold bot.func_add_birthday. bot_step.
    rewrite Hfind, add_birthday_eq, E.
    unfold AddressBook.find in Hfind. rewrite setitem_same by done.
    by destruct w.
Qed.

Lemma for_each_print {A} (g : A → bot.command unit) (f : A → bot.line)
    (l : list A) w :
  (∀ x, g x = bot.print (f x)) →
  bot.for_each l g w
  = (bot.mk_world (bot.book w) (bot.printed w ++ (f <$> l)) (bot.saved w),
     bot.Returned tt).
Proof.
  intros Hg. revert w. induction l as [|x l IH]; intros w.
  - cbn. rewrite app_nil_r. by destruct w.
  - cbn [bot.for_each]. unfold mbind, bot.command_bind. rewrite Hg.
    unfold bot.print at 1. rewrite IH. cbn. by rewrite <- app_assoc.
Qed.

Lemma birthdays_returned today args w l :
  AddressBook.get_upcoming_birthdays (bot.book w) today = OK l →
  bot.birthdays today args w
  = (bot.mk_world (bot.book w)
       (bot.printed w
        ++ match l with
           | [] => [[bot.Chars (txt "No upcoming birthdays.")]]
           | _ :: _ =>
               [bot.Chars (txt "Upcoming birthdays:")]
               :: ((λ e, [bot.Chars (e.1 ++ txt ": "
                            ++ datetime.strftime_dmY (Birthday.value e.2))])
                   <$> l)
           end)
       (bot.saved w),
     bot.Returned tt).
Proof.
  intros E. apply input_error_returned. unfold bot.func_birthdays.
  unfold mbind at 1. unfold bot.command_bind, bot.get_upcoming_birthdays.
  rewrite E. destruct l as [|x l]; [done|].
  unfold mbind, bot.command_bind, bot.print at 1.
  rewrite (for_each_print _
             (λ e, [bot.Chars (e.1 ++ txt ": "
                      ++ datetime.strftime_dmY (Birthday.value e.2))]))
    by (by intros [??]).
  cbn. by rewrite <- app_assoc.
Qed.

Lemma birthdays_raised today args w e :
  AddressBook.get_upcoming_birthdays (bot.book w) today = Raise e →
  bot.birthdays today args w
  = (bot.say w
       match e with
       | ValueError => [bot.TextOf ValueError]
       | OverflowError =>
           [bot.Chars (txt "An unexpected error occurred: ");
            bot.TextOf OverflowError]
       | KeyError => [bot.Chars (txt "Invalid key.")]
       end,
     bot.Returned tt).
Proof.
  intros E. unfold bot.birthdays.
  rewrite (input_error_raised _ _ _ w
             (bot.mk_exception (bot.Core e) [bot.TextOf e])).
  - by destruct e.
  - unfold bot.func_birthdays, mbind, bot.command_bind,
      bot.get_upcoming_birthdays. by rewrite E.
Qed.

(** X16.  The command [birthdays] never raises and changes
    neither the book nor what was saved; it only prints.  When the query
    returns no entry it prints one line saying so; when it returns entries,
    a header and then, for each in the order of the result, one line with
    the name, a colon and the birthday as [strftime] writes it: day and
    month with two digits, the year without leading zeros.  When the query
    raises, it prints one line and no entry: the text of the exception for
    [ValueError], that text after a fixed prefix for [OverflowError]. *)
Theorem birthdays_command_output (today : datetime.t) (args : list text)
    (w : bot.world) :
  ∃ lines,
    bot.birthdays today args w
    = (bot.mk_world (bot.book w) (bot.printed w ++ lines) (bot.saved w),
       bot.Returned tt)
    ∧ match AddressBook.get_upcoming_birthdays (bot.book w) today with
      | OK [] => lines = [[bot.Chars (txt "No upcoming birthdays.")]]
      | OK l =>
          lines
          = [bot.Chars (txt "Upcoming birthdays:")]
            :: ((λ e, [bot.Chars (e.1 ++ txt ": "
                         ++ datetime.strftime_dmY (Birthday.value e.2))])
                <$> l)
      | Raise ValueError => lines = [[bot.TextOf ValueError]]
      | Raise OverflowError =>
          lines = [[bot.Chars (txt "An unexpected error occurred: ");
                    bot.TextOf OverflowError]]
      | Raise KeyError => lines = [[bot.Chars (txt "Invalid key.")]]
      end.
Proof.
  destruct (AddressBook.get_upcoming_birthdays (bot.book w) today)
    as [l|e] eqn:E.
  - rewrite (birthdays_returned _ _ _ _ E). eexists. split; [reflexivity|].
    by destruct l.
  - rewrite (birthdays_raised _ _ _ _ E). unfold bot.say.
    eexists. split; [reflexivity|]. by destruct e.
Qed.

(** A birthday of the year 999 is listed with three digits. *)
Example birthdays_year_999 :
  bot.birthdays (datetime.mk 2024 6 1 0 0 0 0) []
    (bot.mk_world [(txt "Old", with_birthday "Old" 999 6 3)] [] [])
  = (bot.mk_world [(txt "Old", with_birthday "Old" 999 6 3)]
       [[bot.Chars (txt "Upcoming birthdays:")];
        [bot.Chars (txt "Old: 03.06.999")]] [],
     bot.Returned tt).
Proof. reflexivity. Qed.

(** X17.  In a year that is not a leap year, one contact born
    on 29 February makes [birthdays] print the text of the library's
    [ValueError] and nothing else: no other contact's birthday is
    listed. *)
Theorem birthdays_command_leap_day (today : datetime.t) (args : list text)
    (w : bot.world) :
  succeeds (datetime.add_days today 7) →
  datetime.is_leap (datetime.year today) = false →
  (∃ r b, r ∈ dict.values (bot.book w) ∧ Record.birthday r = Some b
          ∧ AddressBook.leap_day b) →
  bot.birthdays today args w
  = (bot.say w [bot.TextOf ValueError], bot.Returned tt).
Proof.
  intros [nw Hnw] Hy Hex.
  apply (birthdays_raised today args w ValueError).
  unfold AddressBook.get_upcoming_birthdays. rewrite Hnw. cbn.
  by apply upcoming_loop_leap_day.
Qed.

Lemma birthdays_command_leap_day_witness :
  datetime.is_leap 2023 = false
  ∧ bot.birthdays (datetime.mk 2023 6 1 10 30 0 0) []
      (bot.mk_world [(txt "Carol", carol); (txt "Ann", ann)] [] [])
    = (bot.mk_world [(txt "Carol", carol); (txt "Ann", ann)]
         [[bot.TextOf ValueError]] [],
       bot.Returned tt).
Proof.
  split; [reflexivity|].
  apply (birthdays_command_leap_day (datetime.mk 2023 6 1 10 30 0 0) []
           (bot.mk_world [(txt "Carol", carol); (txt "Ann", ann)] [] [])).
  - by eexists.
  - reflexivity.
  - exists ann, (Birthday.mk (datetime.mk 2000 2 29 0 0 0 0)).
    split; [|by repeat split].
    apply elem_of_cons. right. by apply list_elem_of_singleton.
Defined.

(** ** What a turn of the loop can change *)

Lemma stored_call_reachable `{UnicodeData} book name r c :
  AddressBook.reachable book →
  AddressBook.find book name = Some r →
  AddressBook.reachable (dict.setitem book name (Record.perform c r).1).
Proof.
  intros Hb Hfind.
  pose proof (AddressBook.reach_act (AddressBook.OnRecord name c) book Hb) as Hr.
  rewrite on_record_eq, Hfind in Hr. apply Hr. by intros r'.
Qed.

Lemma stored_add_phones_reachable `{UnicodeData} book name r ok :
  AddressBook.reachable book →
  AddressBook.find book name = Some r →
  Forall (λ p, Phone.validate p = true) ok →
  AddressBook.reachable
    (dict.setitem book name
       (Record.set_phones r (Record.phones r ++ (Phone.mk <$> ok)))).
Proof.
  intros Hb Hfind Hok. revert book r Hb Hfind.
  induction Hok as [|p ok Hp _ IH]; intros book r Hb Hfind.
  - cbn. rewrite app_nil_r.
    replace (Record.set_phones r (Record.phones r)) with r by (by destruct r).
    unfold AddressBook.find in Hfind. by rewrite setitem_same.
  - pose proof (stored_call_reachable book name r (Record.AddPhone p) Hb Hfind)
      as H1.
    cbn [Record.perform] in H1. rewrite add_phone_eq, Hp in H1. cbn [fst] in H1.
    specialize (IH _ _ H1 (getitem_setitem _ _ _)).
    rewrite setitem_setitem in IH.
    cbn [Record.phones Record.set_phones] in IH.
    rewrite <- app_assoc in IH. exact IH.
Qed.

Lemma new_record_reachable `{UnicodeData} name phones :
  Forall (λ p, Phone.validate p = true) phones →
  Record.reachable (Record.mk (Name.mk name) (Phone.mk <$> phones) None).
Proof.
  intros Hall.
  assert (∀ r, Record.reachable r →
            Record.reachable
              (Record.set_phones r (Record.phones r ++ (Phone.mk <$> phones))))
    as Hadd.
  { induction Hall as [|p phones Hp _ IH]; intros r Hr.
    - cbn. rewrite app_nil_r. by destruct r.
    - pose proof (Record.reach_call (Record.AddPhone p) r Hr) as H1.
      cbn [Record.perform] in H1. rewrite add_phone_eq, Hp in H1.
      cbn [fst] in H1. apply IH in H1.
      cbn [Record.phones Record.set_phones] in H1.
      by rewrite <- app_assoc in H1. }
  exact (Hadd _ (Record.reach_init name (Record.mk (Name.mk name) [] None)
                   eq_refl)).
Qed.

Lemma added_record_reachable `{UnicodeData} book name r :
  AddressBook.reachable book →
  AddressBook.find book name = None →
  Record.reachable r → Name.value (Record.name r) = name →
  AddressBook.reachable (book ++ [(name, r)]).
Proof.
  intros Hb Hnone Hr Hname.
  pose proof (AddressBook.reach_act (AddressBook.AddRecord r) book Hb) as H1.
  cbn [AddressBook.act] in H1. rewrite add_record_eq, Hname in H1.
  cbn [fst] in H1. unfold AddressBook.find in Hnone.
  rewrite setitem_absent in H1 by done. apply H1. by intros r' [= <-].
Qed.

Lemma do_add_turn `{UnicodeData} args w :
  ∃ b' l,
    bot.do_add args w = (bot.say (bot.with_book w b') l, bot.Returned tt)
    ∧ (AddressBook.reachable (bot.book w) → AddressBook.reachable b').
Proof.
  destruct args as [|name [|phone phones]];
    [by exists (bot.book w); eexists | by exists (bot.book w); eexists |].
  destruct (AddressBook.find (bot.book w) name) as [record|] eqn:Hfind.
  - destruct (first_invalid (phone :: phones))
      as [Hall|(ok & bad & rest & Heq & Hok & Hbad)].
    + eexists _, _. split.
      * unfold bot.do_add. bot_step.
        rewrite Hfind, add_phones_valid by done. reflexivity.
      * intros Hb. by apply stored_add_phones_reachable.
    + eexists _, _. split.
      * unfold bot.do_add. bot_step.
        rewrite Hfind, Heq, add_phones_invalid by done. reflexivity.
      * intros Hb. by apply stored_add_phones_reachable.
  - unfold bot.do_add, bot.try_except, bot.find.
    unfold mbind at 1. unfold bot.command_bind at 1. rewrite Hfind.
    change (Record.init name) with (OK (Record.mk (Name.mk name) [] None)).
    cbv iota beta.
    destruct (first_invalid (phone :: phones))
      as [Hall|(ok & bad & rest & Heq & Hok & Hbad)].
    + rewrite add_phones_valid by done.
      unfold bot.add_record, bot.print, mbind, bot.command_bind.
      rewrite add_record_eq.
      cbn [fst snd bot.book bot.printed bot.saved Record.name Name.value
           Record.phones Record.set_phones Record.birthday app].
      unfold AddressBook.find in Hfind. rewrite setitem_absent by done.
      eexists _, _. split; [reflexivity|].
      intros Hb. apply added_record_reachable; [done | done | | done].
      by apply new_record_reachable.
    + rewrite Heq, add_phones_invalid by done.
      exists (bot.book w). eexists. split; [reflexivity | done].
Qed.

Lemma do_change_turn `{UnicodeData} args w :
  ∃ b' l,
    bot.do_change args w = (bot.say (bot.with_book w b') l, bot.Returned tt)
    ∧ (AddressBook.reachable (bot.book w) → AddressBook.reachable b').
Proof.
  destruct args as [|name [|new_phone [|x args]]];
    [by exists (bot.book w); eexists | by exists (bot.book w); eexists | |
     by exists (bot.book w); eexists].
  unfold bot.do_change. bot_step.
  destruct (AddressBook.find (bot.book w) name) as [record|] eqn:Hfind;
    [|by exists (bot.book w); eexists].
  destruct (Record.phones record) as [|p rest] eqn:Hr;
    [by exists (bot.book w); eexists|].
  cbn [fmap list_fmap].
  pose proof (stored_call_reachable (bot.book w) name record
                (Record.EditPhone (Phone.value p) new_phone)) as Hreach.
  cbn [Record.perform] in Hreach.
  rewrite (edit_first_phone record p rest) in * by done.
  destruct (Phone.validate new_phone).
  - eexists _, _. split; [reflexivity|]. intros Hb. by apply Hreach.
  - unfold AddressBook.find in Hfind. rewrite setitem_same by done.
    exists (bot.book w). eexists. split; [reflexivity | done].
Qed.

Lemma add_birthday_turn `{UnicodeData} args w :
  ∃ b' l,
    bot.add_birthday args w = (bot.say (bot.with_book w b') l, bot.Returned tt)
    ∧ (AddressBook.reachable (bot.book w) → AddressBook.reachable b').
Proof.
  assert (∀ l, bot.add_birthday args w = (bot.say w l, bot.Returned tt) →
            ∃ b' l, bot.add_birthday args w
                    = (bot.say (bot.with_book w b') l, bot.Returned tt)
              ∧ (AddressBook.reachable (bot.book w) → AddressBook.reachable b'))
    as Hsame.
  { intros l Hl. exists (bot.book w), l. by split. }
  destruct args as [|name [|d [|x args]]];
    try (eapply Hsame; unfold bot.add_birthday;
         by rewrite (input_error_raised _ _ _ w
                       (bot.mk_exception bot.IndexError
                          [bot.Chars (bot.usage "add-birthday"
                             [bot.word_name; bot.word_birth_date])]))).
  destruct (AddressBook.find (bot.book w) name) as [record|] eqn:Hfind.
  - pose proof (stored_call_reachable (bot.book w) name record
                  (Record.AddBirthday d)) as Hreach.
    cbn [Record.perform] in Hreach. rewrite add_birthday_eq in Hreach.
    destruct (Birthday.init d) as [b|e] eqn:E.
    + eexists _, _. split; [|intros Hb; by apply Hreach].
      apply input_error_returned. unfold bot.func_add_birthday. bot_step.
      rewrite Hfind, add_birthday_eq, E. reflexivity.
    + eapply Hsame. destruct (birthday_init_raises _ _ E) as [-> _].
      unfold bot.add_birthday.
      rewrite (input_error_raised _ _ _ w
                 (bot.mk_exception (bot.Core ValueError) bot.birthday_error));
        [done|].
      unfold bot.func_add_birthday. bot_step.
      rewrite Hfind, add_birthday_eq, E.
      unfold AddressBook.find in Hfind. rewrite setitem_same by done.
      by destruct w.
  - eapply Hsame. apply input_error_returned.
    unfold bot.func_add_birthday. bot_step. by rewrite Hfind.
Qed.

Lemma do_phone_says args w :
  ∃ l, bot.do_phone args w = (bot.say w l, bot.Returned tt).
Proof.
  destruct args as [|name [|x args]]; [by eexists | | by eexists].
  unfold bot.do_phone. bot_step.
  destruct (AddressBook.find (bot.book w) name) as [record|]; [|by eexists].
  destruct (Record.phones record); by eexists.
Qed.

Lemma show_birthday_says args w :
  ∃ l, bot.show_birthday args w = (bot.say w l, bot.Returned tt).
Proof.
  destruct args as [|name [|x args]];
    try (eexists; unfold bot.show_birthday;
         by rewrite (input_error_raised _ _ _ w
                       (bot.mk_exception bot.IndexError
                          [bot.Chars (bot.usage "show-birthday"
                                        [bot.word_name])]))).
  unfold bot.show_birthday, bot.input_error, bot.func_show_birthday. bot_step.
  destruct (AddressBook.find (bot.book w) name) as [record|];
    [|by eexists].
  cbn [option_bind]. destruct (Record.birthday record); by eexists.
Qed.

Lemma do_all_prints w :
  bot.do_all w
  = (bot.mk_world (bot.book w)
       (bot.printed w
        ++ match bot.book w with
           | [] => [[bot.Chars (txt "No contacts found.")]]
           | _ :: _ =>
               [bot.Chars (txt "All contacts:")]
               :: ((λ record, [bot.Chars (Record.str record)])
                   <$> dict.values (bot.book w))
           end)
       (bot.saved w),
     bot.Returned tt).
Proof.
  unfold bot.do_all. destruct w as [book printed saved]. cbn [bot.book].
  destruct book as [|entry book]; [done|].
  unfold mbind, bot.command_bind, bot.print at 1.
  rewrite (for_each_print _ (λ record, [bot.Chars (Record.str record)]))
    by done.
  cbn. by rewrite <- app_assoc.
Qed.

Ltac on_command command s H :=
  destruct (decide (command = s)) as [H|H];
  [rewrite (bool_decide_eq_true_2 _ H) | rewrite (bool_decide_eq_false_2 _ H)];
  cbn [orb].

Ltac other_command :=
  let Hw := fresh in
  intros [? [Hw|Hw]]; apply (f_equal head) in Hw; cbn [head] in Hw; congruence.

Lemma main_body_turn `{UnicodeData} today words w :
  ∃ b' lines c,
    bot.main_body today words w
    = (bot.mk_world b' (bot.printed w ++ lines)
         match c with
         | bot.Break => bot.saved w ++ [bot.book w]
         | bot.Continue => bot.saved w
         end,
       bot.Returned c)
    ∧ lines ≠ []
    ∧ (c = bot.Break
       ↔ ∃ args, words = txt "close" :: args ∨ words = txt "exit" :: args)
    ∧ (c = bot.Break → b' = bot.book w)
    ∧ (b' = bot.book w
       ∨ ∃ args, words = txt "add" :: args ∨ words = txt "change" :: args
                 ∨ words = txt "add-birthday" :: args)
    ∧ (AddressBook.reachable (bot.book w) → AddressBook.reachable b').
Proof.
  unfold bot.main_body, bot.is_command.
  destruct words as [|command args].
  { exists (bot.book w), [[bot.Chars (txt "No command entered. Please try again.")]],
      bot.Continue.
    split; [reflexivity|]. split; [done|].
    split; [split; [done | by intros [? [?|?]]]|]. split; [done|].
    split; [by left | done]. }
  on_command command (txt "close") Hclose.
  { exists (bot.book w), [[bot.Chars (txt "Good bye!")]], bot.Break.
    split; [reflexivity|]. split; [done|].
    split; [split; [|done]; intros _; exists args; left; by rewrite Hclose|].
    split; [done|]. split; [by left | done]. }
  on_command command (txt "exit") Hexit.
  { exists (bot.book w), [[bot.Chars (txt "Good bye!")]], bot.Break.
    split; [reflexivity|]. split; [done|].
    split; [split; [|done]; intros _; exists args; right; by rewrite Hexit|].
    split; [done|]. split; [by left | done]. }
  on_command command (txt "hello") Hhello.
  { exists (bot.book w), [[bot.Chars (txt "How can I help you?")]], bot.Continue.
    split; [reflexivity|]. split; [done|].
    split; [split; [done | other_command]|]. split; [done|].
    split; [by left | done]. }
  on_command command (txt "add") Hadd.
  { destruct (do_add_turn args w) as (b' & l & Hrun & Hreach).
    exists b', [l], bot.Continue. unfold mbind, bot.command_bind. rewrite Hrun.
    split; [reflexivity|]. split; [done|].
    split; [split; [done | other_command]|]. split; [done|].
    split; [|done]. right. exists args. left. by rewrite Hadd. }
  on_command command (txt "change") Hchange.
  { destruct (do_change_turn args w) as (b' & l & Hrun & Hreach).
    exists b', [l], bot.Continue. unfold mbind, bot.command_bind. rewrite Hrun.
    split; [reflexivity|]. split; [done|].
    split; [split; [done | other_command]|]. split; [done|].
    split; [|done]. right. exists args. right. left. by rewrite Hchange. }
  on_command command (txt "phone") Hphone.
  { destruct (do_phone_says args w) as (l & Hrun).
    exists (bot.book w), [l], bot.Continue.
    unfold mbind, bot.command_bind. rewrite Hrun.
    split; [reflexivity|]. split; [done|].
    split; [split; [done | other_command]|]. split; [done|].
    split; [by left | done]. }
  on_command command (txt "all") Hall.
  { eexists (bot.book w), _, bot.Continue.
    unfold mbind, bot.command_bind. rewrite do_all_prints.
    split; [reflexivity|]. split; [by destruct (bot.book w)|].
    split; [split; [done | other_command]|]. split; [done|].
    split; [by left | done]. }
  on_command command (txt "add-birthday") Haddb.
  { destruct (add_birthday_turn args w) as (b' & l & Hrun & Hreach).
    exists b', [l], bot.Continue. unfold mbind, bot.command_bind. rewrite Hrun.
    split; [reflexivity|]. split; [done|].
    split; [split; [done | other_command]|]. split; [done|].
    split; [|done]. right. exists args. right. right. by rewrite Haddb. }
  on_command command (txt "show-birthday") Hshow.
  { destruct (show_birthday_says args w) as (l & Hrun).
    exists (bot.book w), [l], bot.Continue.
    unfold mbind, bot.command_bind. rewrite Hrun.
    split; [reflexivity|]. split; [done|].
    split; [split; [done | other_command]|]. split; [done|].
    split; [by left | done]. }
  on_command command (txt "birthdays") Hbirthdays.
  { destruct (AddressBook.get_upcoming_birthdays (bot.book w) today)
      as [l|e] eqn:E.
    - eexists (bot.book w), _, bot.Continue.
      unfold mbind, bot.command_bind. rewrite (birthdays_returned _ _ _ _ E).
      split; [reflexivity|]. split; [by destruct l|].
      split; [split; [done | other_command]|]. split; [done|].
      split; [by left | done].
    - eexists (bot.book w), [_], bot.Continue.
      unfold mbind, bot.command_bind. rewrite (birthdays_raised _ _ _ _ E).
      split; [reflexivity|]. split; [done|].
      split; [split; [done | other_command]|]. split; [done|].
      split; [by left | done]. }
  exists (bot.book w), [[bot.Chars (txt "Invalid command.")]], bot.Continue.
  split; [reflexivity|]. split; [done|].
  split; [split; [done | other_command]|]. split; [done|].
  split; [by left | done].
Qed.

(** X18.  One turn of the loop of [main], on any input.  The turn returns:
    no exception leaves the loop.  It prints at least one line and keeps
    the lines printed before.  It ends the loop exactly when the first word
    is [close] or [exit], and only then, and once, is the book handed to
    [save_data]; on every other turn nothing is saved.  The book stays the
    same unless the first word is [add], [change] or [add-birthday]. *)
Theorem turn_frame `{UnicodeData} (today : datetime.t) (words : list text)
    (w : bot.world) :
  ∃ b' lines c,
    bot.main_body today words w
    = (bot.mk_world b' (bot.printed w ++ lines)
         match c with
         | bot.Break => bot.saved w ++ [bot.book w]
         | bot.Continue => bot.saved w
         end,
       bot.Returned c)
    ∧ lines ≠ []
    ∧ (c = bot.Break
       ↔ ∃ args, words = txt "close" :: args ∨ words = txt "exit" :: args)
    ∧ (b' = bot.book w
       ∨ ∃ args, words = txt "add" :: args ∨ words = txt "change" :: args
                 ∨ words = txt "add-birthday" :: args).
Proof.
  destruct (main_body_turn today words w)
    as (b' & lines & c & Hrun & Hlines & Hbreak & _ & Hframe & _).
  by exists b', lines, c.
Qed.

(** X19.  Over any inputs, from a book reached through the
    operations of the classes (the empty one, for instance), the loop
    returns, and the book it leaves is again such a book: its keys are
    unique, each is the name of its record, and every stored phone passes
    the validation, also after commands that failed half-way.  What was
    handed to [save_data] is nothing, or the final book and only that. *)
Theorem session_keeps_book_valid `{UnicodeData}
    (inputs : list (datetime.t * list text)) (w : bot.world) :
  AddressBook.reachable (bot.book w) →
  ∃ w', bot.main_loop inputs w = (w', bot.Returned tt)
    ∧ AddressBook.reachable (bot.book w')
    ∧ AddressBook.well_keyed (bot.book w')
    ∧ Forall Record.phones_valid (dict.values (bot.book w'))
    ∧ (bot.saved w' = bot.saved w ∨ bot.saved w' = bot.saved w ++ [bot.book w']).
Proof.
  assert (∀ book, AddressBook.reachable book →
            AddressBook.well_keyed book
            ∧ Forall Record.phones_valid (dict.values book)) as Hvalid.
  { intros book Hb. split; [by apply reachable_well_keyed|].
    eapply list.Forall_impl; [by apply reachable_records|].
    apply reachable_phones_valid. }
  revert w. induction inputs as [|[today words] inputs IH]; intros w Hb.
  - exists w. split; [done|]. split; [done|].
    destruct (Hvalid _ Hb). by auto.
  - cbn [bot.main_loop]. unfold mbind at 1. unfold bot.command_bind at 1.
    destruct (main_body_turn today words w)
      as (b' & lines & c & -> & _ & _ & Hsame & _ & Hreach).
    specialize (Hreach Hb). destruct c.
    + destruct (IH (bot.mk_world b' (bot.printed w ++ lines) (bot.saved w)) Hreach)
        as (w' & Hrun & ?). by exists w'.
    + rewrite (Hsame eq_refl) in *. eexists. split; [reflexivity|].
      cbn [bot.book bot.saved]. split; [done|].
      destruct (Hvalid _ Hreach). by auto.
Qed.

Lemma session_keeps_book_valid_witness :
  AddressBook.reachable []
  ∧ ∃ w', bot.main_loop
            [(datetime.mk 2024 6 1 10 30 0 0,
              [txt "add"; txt "John"; txt "1234567890"; txt "12"]);
             (datetime.mk 2024 6 1 10 31 0 0, [txt "exit"])]
            (bot.mk_world [] [] [])
          = (w', bot.Returned tt)
      ∧ AddressBook.reachable (bot.book w')
      ∧ AddressBook.well_keyed (bot.book w')
      ∧ Forall Record.phones_valid (dict.values (bot.book w'))
      ∧ (bot.saved w' = [] ∨ bot.saved w' = [] ++ [bot.book w']).
Proof.
  split; [exact AddressBook.reach_empty|].
  exact (session_keeps_book_valid _ (bot.mk_world [] [] [])
           AddressBook.reach_empty).
Defined.

Lemma fmap_value_mk (phones : list text) :
  Phone.value <$> (Phone.mk <$> phones) = phones.
Proof. induction phones as [|p phones IH]; cbn; [done | by rewrite IH]. Qed.

(** X20.  After [add name phone ...] with a new name and valid
    phones, [phone name] prints those phones, in the order given, separated
    by a comma and a space. *)
Theorem phone_command_after_add `{UnicodeData}
    (w : bot.world) (name phone : text) (phones : list text) :
  AddressBook.find (bot.book w) name = None →
  Forall (λ p, Phone.validate p = true) (phone :: phones) →
  ∃ w1, bot.do_add (name :: phone :: phones) w = (w1, bot.Returned tt)
    ∧ bot.do_phone [name] w1
      = (bot.say w1
           [bot.Chars (txt "Phone(s) for " ++ name ++ txt ": "
                       ++ Record.join (txt ", ") (phone :: phones))],
         bot.Returned tt).
Proof.
  intros Hnone Hall. eexists. split.
  - unfold bot.do_add, bot.try_except, bot.find.
    unfold mbind at 1. unfold bot.command_bind at 1. rewrite Hnone.
    change (Record.init name) with (OK (Record.mk (Name.mk name) [] None)).
    cbv iota beta. rewrite add_phones_valid by done.
    unfold bot.add_record, bot.print, mbind, bot.command_bind.
    rewrite add_record_eq. reflexivity.
  - unfold bot.do_phone. bot_step. cbn [bot.book fst].
    unfold AddressBook.find. rewrite getitem_setitem.
    cbn [Record.phones Record.set_phones app fmap list_fmap].
    change (Phone.value (Phone.mk phone) :: list_fmap _ _ Phone.value
              (list_fmap _ _ Phone.mk phones))
      with (phone :: (Phone.value <$> (Phone.mk <$> phones))).
    by rewrite fmap_value_mk.
Qed.

Lemma phone_command_after_add_witness :
  AddressBook.find [] (txt "John") = None
  ∧ bot.printed
      (bot.do_phone [txt "John"]
         (bot.do_add [txt "John"; txt "1234567890"; txt "0987654321"]
            (bot.mk_world [] [] [])).1).1
    = [[bot.Chars (txt "New contact 'John' added with phone(s).")];
       [bot.Chars (txt "Phone(s) for John: 1234567890, 0987654321")]].
Proof.
  split; [reflexivity|].
  assert (Forall (λ p, Phone.validate p = true)
            [txt "1234567890"; txt "0987654321"]) as Hok.
  { apply Forall_cons_2; [reflexivity|].
    apply Forall_cons_2; [reflexivity | apply Forall_nil_2]. }
  destruct (phone_command_after_add (bot.mk_world [] [] []) (txt "John")
              (txt "1234567890") [txt "0987654321"] eq_refl Hok)
    as (w1 & Hadd & Hphone).
  rewrite Hadd. cbn [fst]. rewrite Hphone.
  injection Hadd as <-. reflexivity.
Defined.
